(** * Autotuning tuner: helpers, configuration loader, output control

    A shallow embedding of the pure and state-passing parts of
    [tuner/helpers.py], [tuner/tune_conf.py], [tuner/tune.py] and
    [tuner/output.py], with the properties the specification states
    about them.

    Modelling conventions.
    - A Python [int] is a [Z].  A Python [float] is an IEEE 754 binary64
      value, a [spec_float] of the Standard Library with 53 bits of
      mantissa: conversions and operations round to the nearest float,
      ties to even, and there are signed zeros, infinities and NaN.
    - A Python [str] is a [string] (a sequence of 8-bit characters; case
      mapping and whitespace are the ASCII ones).
    - A Python [dict] that is iterated, copied and compared is an
      association list in insertion order with unique keys; a dict that is
      only looked up is a [gmap].
    - A raised exception is the [Raise] alternative of [result]; only the
      exception class is kept, and for [ConfigurationError] the check that
      raised it. *)

From Stdlib Require Import ZArith QArith String Ascii List Bool Lia.
From Stdlib Require Import Permutation Sorted DecimalString SpecFloat Qpower.
From stdpp Require Import gmap strings.
From Equations Require Import Equations.
Import ListNotations.

Local Open Scope string_scope.
Local Open Scope list_scope.
Local Open Scope Z_scope.

(* ------------------------------------------------------------------ *)
(** ** Exceptions and results                                          *)
(* ------------------------------------------------------------------ *)

(** The check of [tune_conf.py] that raised a [ConfigurationError]. *)
Inductive config_error : Type :=
| ReadFailed
| MissingSections (missing : list string)
| MissingVariablesOption
| MissingValues (missing : list string)
| MissingTest
| InvalidOptimal (setting : string)
| InvalidRepeat
| InvalidAggregation (method : string).

Inductive exn : Type :=
| TypeError
| ValueError
| IndexError
| KeyError
| ZeroDivisionError
| OverflowError
| FileNotFoundError
| OSError
| ConfigurationError (why : config_error)
| OtherError (name : string).

Inductive result (A : Type) : Type :=
| Ok (a : A)
| Raise (e : exn).
Arguments Ok {A} a.
Arguments Raise {A} e.

Definition bind {A B : Type} (r : result A) (k : A -> result B) : result B :=
  match r with
  | Ok a => k a
  | Raise e => Raise e
  end.

Notation "'let*' x ':=' r 'in' k" := (bind r (fun x => k))
  (at level 10, x name, r at level 100, k at level 200).

(* ------------------------------------------------------------------ *)
(** ** Python values                                                   *)
(* ------------------------------------------------------------------ *)

(** [sys.float_info.mant_dig] and [sys.float_info.max_exp]: a float is
    an IEEE 754 binary64 value. *)
Definition mant_dig : Z := 53.
Definition max_exp : Z := 1024.

(** Numbers: [isinstance(v, (int, float))].  A float is a signed zero,
    a signed infinity, NaN, or a sign with a mantissa [m] and an
    exponent [e], which stands for [m * 2 ^ e]. *)
Inductive num : Type :=
| PyInt (z : Z)
| PyFloat (f : spec_float).

(** The elements a list can hold here: numbers, strings, [None]. *)
Inductive pyval : Type :=
| VNum (n : num)
| VStr (s : string)
| VNone.

(** What a caller can pass where a list is expected. *)
Inductive pyobj : Type :=
| PyVal (v : pyval)
| PyList (l : list pyval).

(** The float nearest to [m * 2 ^ e], ties to the even mantissa: the
    float a literal such as [2.5], which is [5 * 2 ^ -1], denotes. *)
Definition float_lit (m e : Z) : spec_float :=
  binary_normalize mant_dig max_exp m e false.

(** What a number other than NaN stands for: a rational or an
    infinity. *)
Inductive ext : Type :=
| NegInf
| Finite (q : Q)
| PosInf.

Definition float_val (f : spec_float) : option ext :=
  match f with
  | S754_nan => None
  | S754_infinity s => Some (if s then NegInf else PosInf)
  | S754_zero _ => Some (Finite 0)
  | S754_finite s m e =>
      Some (Finite (inject_Z (cond_Zopp s (Z.pos m)) * 2 ^ e))
  end.

Definition num_val (x : num) : option ext :=
  match x with
  | PyInt z => Some (Finite (inject_Z z))
  | PyFloat f => float_val f
  end.

Definition ext_compare (a b : ext) : comparison :=
  match a, b with
  | Finite p, Finite q => (p ?= q)%Q
  | NegInf, NegInf => Eq
  | PosInf, PosInf => Eq
  | NegInf, _ => Lt
  | _, PosInf => Lt
  | _, NegInf => Gt
  | PosInf, _ => Gt
  end.

(** The comparison of two numbers is the one of what they stand for, an
    int against a float too; NaN compares with nothing. *)
Definition num_compare (x y : num) : option comparison :=
  match num_val x, num_val y with
  | Some a, Some b => Some (ext_compare a b)
  | _, _ => None
  end.

(** [x < y] and [x == y] on numbers. *)
Definition num_ltb (x y : num) : bool :=
  match num_compare x y with Some Lt => true | _ => false end.

Definition num_eqb (x y : num) : bool :=
  match num_compare x y with Some Eq => true | _ => false end.

(** [float(z)] of an int: the nearest float, ties to the even mantissa;
    [OverflowError] when that is beyond the largest float. *)
Definition float_of_int (z : Z) : result spec_float :=
  match binary_normalize mant_dig max_exp z 0 false with
  | S754_infinity _ => Raise OverflowError
  | f => Ok f
  end.

(** [float(x)]: a float is returned as it is. *)
Definition py_float (x : num) : result spec_float :=
  match x with
  | PyInt z => float_of_int z
  | PyFloat f => Ok f
  end.

(** [x + y]: integer addition on two ints; otherwise the int operand is
    converted and the two floats are added, which rounds the sum and
    gives an infinity beyond the largest float. *)
Definition py_add (x y : num) : result num :=
  match x, y with
  | PyInt a, PyInt b => Ok (PyInt (a + b))
  | _, _ =>
      let* a := py_float x in
      let* b := py_float y in
      Ok (PyFloat (SFadd mant_dig max_exp a b))
  end.

Definition is_zero (f : spec_float) : bool :=
  match f with
  | S754_zero _ => true
  | _ => false
  end.

(** [x / y] when [x] or [y] is a float, which is the case at both
    divisions of this file ([float.__truediv__], [float.__rtruediv__]):
    the int operand is converted, a divisor [0.0] or [-0.0] raises
    [ZeroDivisionError], and the quotient of the two floats is rounded. *)
Definition float_div (x y : num) : result spec_float :=
  let* a := py_float x in
  let* b := py_float y in
  if is_zero b then Raise ZeroDivisionError
  else Ok (SFdiv mant_dig max_exp a b).

(** [x < y] on list elements; numbers and strings do not compare with
    each other, and [None] compares with nothing. *)
Definition py_lt (x y : pyval) : result bool :=
  match x, y with
  | VNum a, VNum b => Ok (num_ltb a b)
  | VStr a, VStr b => Ok (String.ltb a b)
  | _, _ => Raise TypeError
  end.

(** [x == y] on list elements. *)
Definition py_eq (x y : pyval) : bool :=
  match x, y with
  | VNum a, VNum b => num_eqb a b
  | VStr a, VStr b => String.eqb a b
  | VNone, VNone => true
  | _, _ => false
  end.

(** [len(l)] *)
Definition len {A : Type} (l : list A) : Z := Z.of_nat (length l).

(** [l[i]] with Python's negative indices. *)
Definition py_index {A : Type} (l : list A) (i : Z) : result A :=
  let j := if i <? 0 then len l + i else i in
  if j <? 0 then Raise IndexError
  else match nth_error l (Z.to_nat j) with
       | Some a => Ok a
       | None => Raise IndexError
       end.

(** [sorted(l)]: a stable sort that only uses [<].  Each element is put
    in front of the first element that is not smaller than it.  On
    numbers other than NaN [<] is a strict weak order, and a stable sort
    has one result; a list that holds a NaN, which is smaller than
    nothing and larger than nothing, has no order to be sorted by, and
    the properties of [sorted] below leave such lists out. *)
Fixpoint insert_sorted {A : Type} (ltb : A -> A -> bool) (x : A) (l : list A)
  : list A :=
  match l with
  | [] => [x]
  | y :: l' => if ltb y x then y :: insert_sorted ltb x l' else x :: y :: l'
  end.

Definition sorted_by {A : Type} (ltb : A -> A -> bool) (l : list A) : list A :=
  fold_right (insert_sorted ltb) [] l.

Definition sorted (l : list num) : list num := sorted_by num_ltb l.

(** [sum(l)]: starts from the int [0] and adds the items from the left.
    (From Python 3.12 on the floats of a sum are added with a running
    compensation of the rounding error; this changes the last bits of a
    sum of three or more floats, and neither the sum of one item nor the
    exceptions.) *)
Fixpoint sum_loop (total : num) (l : list num) : result num :=
  match l with
  | [] => Ok total
  | x :: l' => let* total' := py_add total x in sum_loop total' l'
  end.

Definition py_sum (l : list num) : result num := sum_loop (PyInt 0) l.

(* ------------------------------------------------------------------ *)
(** ** helpers.py: med and avg                                         *)
(* ------------------------------------------------------------------ *)

(** The validation loop of [med] and [avg]: the first element that is
    not an int or a float raises [TypeError]. *)
Fixpoint validate_numeric (l : list pyval) : result (list num) :=
  match l with
  | [] => Ok []
  | VNum n :: l' => let* ns := validate_numeric l' in Ok (n :: ns)
  | _ :: _ => Raise TypeError
  end.

Definition med (values : pyobj) : result pyval :=
  match values with
  | PyVal _ => Raise TypeError
  | PyList [] => Raise ValueError
  | PyList l =>
      let* xs := validate_numeric l in
      let sorted_values := sorted xs in
      let n := len sorted_values in
      if n mod 2 =? 1 then
        let* x := py_index sorted_values (n / 2) in
        let* f := py_float x in
        Ok (VNum (PyFloat f))
      else
        let mid_idx := n / 2 in
        let* a := py_index sorted_values (mid_idx - 1) in
        let* b := py_index sorted_values mid_idx in
        let* t := py_add a b in
        let* r := float_div t (PyFloat (float_lit 2 0)) in
        Ok (VNum (PyFloat r))
  end.

Definition avg (values : pyobj) : result pyval :=
  match values with
  | PyVal _ => Raise TypeError
  | PyList [] => Raise ValueError
  | PyList l =>
      let* xs := validate_numeric l in
      let* total := py_sum xs in
      let* f := py_float total in
      let* r := float_div (PyFloat f) (PyInt (len xs)) in
      Ok (VNum (PyFloat r))
  end.

(** The built-ins [min] and [max] on one iterable argument.  A list is
    iterated element by element, a string character by character; a
    number or [None] is not iterable. *)
Definition py_iter (arg : pyobj) : result (list pyval) :=
  match arg with
  | PyList l => Ok l
  | PyVal (VStr s) =>
      Ok (map (fun c => VStr (String c EmptyString)) (list_ascii_of_string s))
  | PyVal _ => Raise TypeError
  end.

(** [min] keeps the first smallest item: a later item replaces the
    current one only when it is strictly smaller. *)
Fixpoint min_loop (cur : pyval) (l : list pyval) : result pyval :=
  match l with
  | [] => Ok cur
  | x :: l' =>
      let* b := py_lt x cur in
      min_loop (if b then x else cur) l'
  end.

Fixpoint max_loop (cur : pyval) (l : list pyval) : result pyval :=
  match l with
  | [] => Ok cur
  | x :: l' =>
      let* b := py_lt cur x in
      max_loop (if b then x else cur) l'
  end.

Definition py_min (arg : pyobj) : result pyval :=
  let* items := py_iter arg in
  match items with
  | [] => Raise ValueError
  | x :: l => min_loop x l
  end.

Definition py_max (arg : pyobj) : result pyval :=
  let* items := py_iter arg in
  match items with
  | [] => Raise ValueError
  | x :: l => max_loop x l
  end.

(** A list of numbers as a caller passes it. *)
Definition num_list (l : list num) : pyobj := PyList (map VNum l).

(* ------------------------------------------------------------------ *)
(** ** Python string methods                                           *)
(* ------------------------------------------------------------------ *)

Definition is_upper (c : ascii) : bool :=
  let n := nat_of_ascii c in ((65 <=? n) && (n <=? 90))%nat.

Definition lower_char (c : ascii) : ascii :=
  if is_upper c then ascii_of_nat (nat_of_ascii c + 32) else c.

(** [s.lower()] *)
Fixpoint lower (s : string) : string :=
  match s with
  | EmptyString => EmptyString
  | String c s' => String (lower_char c) (lower s')
  end.

(** The characters [str.strip()] removes: tab to carriage return, the
    four separators 28 to 31, and the space. *)
Definition py_isspace (c : ascii) : bool :=
  let n := nat_of_ascii c in
  (((9 <=? n) && (n <=? 13)) || ((28 <=? n) && (n <=? 32)))%nat.

Fixpoint lstrip (s : string) : string :=
  match s with
  | EmptyString => EmptyString
  | String c s' => if py_isspace c then lstrip s' else s
  end.

Fixpoint rstrip (s : string) : string :=
  match s with
  | EmptyString => EmptyString
  | String c s' =>
      match rstrip s' with
      | EmptyString => if py_isspace c then EmptyString else String c EmptyString
      | r => String c r
      end
  end.

(** [s.strip()] *)
Definition strip (s : string) : string := rstrip (lstrip s).

(** [s.partition(',')]: head, separator and tail around the first comma;
    the whole string and two empty strings when there is none. *)
Fixpoint partition_comma (s : string) : string * string * string :=
  match s with
  | EmptyString => (EmptyString, EmptyString, EmptyString)
  | String c s' =>
      if Ascii.eqb c "," then (EmptyString, ",", s')
      else let '(h, sep, t) := partition_comma s' in (String c h, sep, t)
  end.

(** [s.split(",")] *)
Fixpoint split_comma (s : string) : list string :=
  match s with
  | EmptyString => [EmptyString]
  | String c s' =>
      if Ascii.eqb c "," then EmptyString :: split_comma s'
      else match split_comma s' with
           | h :: t => String c h :: t
           | [] => [String c EmptyString]
           end
  end.

(** [str(n)] for an int. *)
Definition py_str_int (n : Z) : string := NilZero.string_of_int (Z.to_int n).

Definition digit_of (c : ascii) : option Z :=
  let n := nat_of_ascii c in
  if ((48 <=? n) && (n <=? 57))%nat then Some (Z.of_nat (n - 48)) else None.

(** Decimal digits, single underscores allowed between two digits. *)
Fixpoint parse_digits (after_digit : bool) (acc : Z) (s : string) : option Z :=
  match s with
  | EmptyString => if after_digit then Some acc else None
  | String c s' =>
      match digit_of c with
      | Some d => parse_digits true (10 * acc + d) s'
      | None =>
          if Ascii.eqb c "_" && after_digit then parse_digits false acc s'
          else None
      end
  end.

(** [int(s)] for a string: surrounding whitespace, an optional sign, then
    decimal digits; anything else raises [ValueError]. *)
Definition py_int (s : string) : result Z :=
  let unsigned (r : string) (sign : Z) : result Z :=
    match parse_digits false 0 r with
    | Some n => Ok (sign * n)
    | None => Raise ValueError
    end in
  match strip s with
  | String "-" r => unsigned r (-1)
  | String "+" r => unsigned r 1
  | r => unsigned r 1
  end.

(** The rest of [s] after the prefix [p], when [s] starts with [p]. *)
Fixpoint strip_prefix (p s : string) : option string :=
  match p with
  | EmptyString => Some s
  | String a p' =>
      match s with
      | EmptyString => None
      | String b s' => if Ascii.eqb a b then strip_prefix p' s' else None
      end
  end.

(** A value together with the equation that it is that value. *)
Definition inspect {A : Type} (x : A) : {y : A | x = y} := exist _ x eq_refl.

(** [s.replace(old, new)] for a non-empty [old = String a old']: scan
    from the left; at an occurrence emit [new] and go on after it, else
    copy one character. *)
Equations? replace_nonempty (a : ascii) (old' new s : string) : string
  by wf (String.length s) lt :=
  replace_nonempty a old' new EmptyString := EmptyString;
  replace_nonempty a old' new (String c s')
    with inspect (strip_prefix (String a old') (String c s')) := {
    | exist _ (Some rest) Hp => new +:+ replace_nonempty a old' new rest;
    | exist _ None Hp => String c (replace_nonempty a old' new s') }.
Proof.
  assert (shorter : forall p t r, strip_prefix p t = Some r ->
                      (String.length r <= String.length t)%nat).
  { induction p as [|x p IH]; intros [|y t] r H; simpl in *;
      try (inversion H; subst; simpl; lia).
    destruct (Ascii.eqb x y); [|discriminate].
    apply IH in H. lia. }
  simpl in Hp. destruct (Ascii.eqb a c); [|discriminate].
  apply shorter in Hp. lia.
Qed.

(** With an empty [old], [new] is put before every character and at the
    end. *)
Fixpoint replace_empty (new s : string) : string :=
  match s with
  | EmptyString => new
  | String c s' => new +:+ String c (replace_empty new s')
  end.

(** [s.replace(old, new)] *)
Definition str_replace (s old new : string) : string :=
  match old with
  | EmptyString => replace_empty new s
  | String a old' => replace_nonempty a old' new s
  end.

(* ------------------------------------------------------------------ *)
(** ** Python dicts with string keys and values                        *)
(* ------------------------------------------------------------------ *)

(** Items in insertion order; keys are unique. *)
Definition dict : Type := list (string * string).

Fixpoint dict_get (d : dict) (k : string) : option string :=
  match d with
  | [] => None
  | (k', v) :: d' => if String.eqb k' k then Some v else dict_get d' k
  end.

(** [d[k] = v]: an existing key keeps its place, a new key goes last. *)
Fixpoint dict_set (d : dict) (k v : string) : dict :=
  match d with
  | [] => [(k, v)]
  | (k', v') :: d' =>
      if String.eqb k' k then (k, v) :: d' else (k', v') :: dict_set d' k v
  end.

(** [a == b]: same number of items, and every key of [a] is in [b] with
    the same value; the order plays no part. *)
Definition dict_eqb (a b : dict) : bool :=
  Nat.eqb (length a) (length b) &&
  forallb (fun '(k, v) =>
             match dict_get b k with
             | Some v' => String.eqb v v'
             | None => false
             end) a.

(** [d in l] for a list of dicts. *)
Definition dict_in (d : dict) (l : list dict) : bool := existsb (dict_eqb d) l.

(* ------------------------------------------------------------------ *)
(** ** helpers.py: strVarVals                                          *)
(* ------------------------------------------------------------------ *)

(** [<] on [(name, value)] tuples: by name, then by value. *)
Definition item_ltb (x y : string * string) : bool :=
  if String.eqb (fst x) (fst y) then String.ltb (snd x) (snd y)
  else String.ltb (fst x) (fst y).

(** [f"{var} = {val}"] *)
Definition format_item (item : string * string) : string :=
  fst item +:+ " = " +:+ snd item.

Definition strVarVals (var_dict : dict) (sep : string) : string :=
  match var_dict with
  | [] => EmptyString
  | _ => String.concat sep (map format_item (sorted_by item_ltb var_dict))
  end.

(* ------------------------------------------------------------------ *)
(** ** helpers.py: crossproduct and crossproduct_itertools             *)
(* ------------------------------------------------------------------ *)

Section CrossProduct.
Context {T : Type}.

Definition is_nil {A : Type} (l : list A) : bool :=
  match l with [] => true | _ => false end.

(** One round of the loop:
    [[existing + [item] for item in sublist for existing in cross_prod]] *)
Definition crossproduct_step (cross_prod : list (list T)) (sublist : list T)
  : list (list T) :=
  flat_map (fun item => map (fun existing => existing ++ [item]) cross_prod)
           sublist.

Definition crossproduct (list_of_lists : list (list T))
  : result (list (list T)) :=
  match list_of_lists with
  | [] => Ok [[]]
  | _ =>
      if existsb is_nil list_of_lists then Raise ValueError
      else Ok (fold_left crossproduct_step list_of_lists [[]])
  end.

(** [itertools.product] applied to the pools, as the library documents it:
    [result = [[]]], then for each pool
    [result = [x + [y] for x in result for y in pool]]. *)
Definition product_step (result : list (list T)) (pool : list T)
  : list (list T) :=
  flat_map (fun x => map (fun y => x ++ [y]) pool) result.

Definition product (pools : list (list T)) : list (list T) :=
  fold_left product_step pools [[]].

Definition crossproduct_itertools (list_of_lists : list (list T))
  : list (list T) :=
  match list_of_lists with
  | [] => [[]]
  | _ => product list_of_lists
  end.
End CrossProduct.

(* ------------------------------------------------------------------ *)
(** ** configparser.RawConfigParser, once the file is read             *)
(* ------------------------------------------------------------------ *)

(** Sections by name, each holding its options by name.  Option names
    go through [optionxform], which lower-cases them.  There is no
    DEFAULT section. *)
Abbreviation RawConfigParser := (gmap string (gmap string string)).

Definition optionxform (option : string) : string := lower option.

Definition has_section (config : RawConfigParser) (section : string) : bool :=
  match config !! section with
  | Some _ => true
  | None => false
  end.

Definition has_option (config : RawConfigParser) (section option : string)
  : bool :=
  match config !! section with
  | Some options =>
      match options !! optionxform option with
      | Some _ => true
      | None => false
      end
  | None => false
  end.

Definition config_get (config : RawConfigParser) (section option : string)
  : result string :=
  match config !! section with
  | Some options =>
      match options !! optionxform option with
      | Some value => Ok value
      | None => Raise (OtherError "NoOptionError")
      end
  | None => Raise (OtherError "NoSectionError")
  end.

(* ------------------------------------------------------------------ *)
(** ** tune_conf.py                                                    *)
(* ------------------------------------------------------------------ *)

(** The function [_create_command_function] returns; [command_type]
    only names it. *)
Definition make_command_string (template : string)
    (test_id : Z) (var_dict : dict) : string :=
  let command := str_replace template "%%ID%%" (py_str_int test_id) in
  fold_left
    (fun command '(var_name, var_value) =>
       let placeholder := "%" +:+ var_name +:+ "%" in
       str_replace command placeholder var_value)
    var_dict command.

Definition _create_command_function (template command_type : string)
  : Z -> dict -> string :=
  make_command_string template.

Definition required_sections : list string :=
  ["variables"; "values"; "testing"; "scoring"; "output"].

Definition _validate_required_sections (config : RawConfigParser)
  : result unit :=
  let missing_sections :=
    List.filter (fun section => negb (has_section config section))
                required_sections in
  match missing_sections with
  | [] => Ok tt
  | _ => Raise (ConfigurationError (MissingSections missing_sections))
  end.

Definition _validate_variables_section (config : RawConfigParser)
  : result string :=
  if negb (has_option config "variables" "variables")
  then Raise (ConfigurationError MissingVariablesOption)
  else config_get config "variables" "variables".

Definition _validate_and_extract_values (config : RawConfigParser)
    (variables : list string) : result (gmap string (list string)) :=
  let missing_variables :=
    List.filter (fun var => negb (has_option config "values" var))
                variables in
  match missing_variables with
  | [] =>
      fold_left
        (fun acc var =>
           let* poss_values := acc in
           let* raw_values := config_get config "values" var in
           Ok (<[var := map strip (split_comma raw_values)]> poss_values))
        variables (Ok ∅)
  | _ => Raise (ConfigurationError (MissingValues missing_variables))
  end.

(** A command: its template and the function that renders it. *)
Definition command_info : Type := option string * option (Z -> dict -> string).

(** The [compile] and [clean] commands of [_setup_commands]: template and
    function when the option is there, [None] twice when it is not. *)
Definition optional_command (config : RawConfigParser) (name : string)
  : result command_info :=
  if has_option config "testing" name then
    let* template := config_get config "testing" name in
    Ok (Some template, Some (_create_command_function template name))
  else Ok (None, None).

Definition _setup_commands (config : RawConfigParser)
  : result (command_info * command_info * command_info) :=
  let* compile_info := optional_command config "compile" in
  let* test_info :=
    if has_option config "testing" "test" then
      let* test_template := config_get config "testing" "test" in
      Ok (Some test_template,
          Some (_create_command_function test_template "test"))
    else Raise (ConfigurationError MissingTest) in
  let* clean_info := optional_command config "clean" in
  Ok (compile_info, test_info, clean_info).

(** What reduces the scores of the repetitions of one test to one. *)
Definition aggregator_fn : Type := pyobj -> result pyval.

Definition aggregator_map : list (string * aggregator_fn) :=
  [("max", py_max); ("min", py_min); ("med", med); ("avg", avg)].

Fixpoint lookup_name {A : Type} (k : string) (l : list (string * A))
  : option A :=
  match l with
  | [] => None
  | (k', a) :: l' => if String.eqb k' k then Some a else lookup_name k l'
  end.

Definition optimal_settings : list string :=
  ["max_time"; "min_time"; "max"; "min"].

(** The first half of [_setup_scoring]: [optimal] and [custom_fom]. *)
Definition scoring_optimal (config : RawConfigParser) : result (string * bool) :=
  if has_option config "scoring" "optimal" then
    let* value := config_get config "scoring" "optimal" in
    let optimal_setting := lower value in
    if existsb (String.eqb optimal_setting) optimal_settings then
      Ok (substring 0 3 optimal_setting,
          Nat.eqb (String.length optimal_setting) 3)
    else Raise (ConfigurationError (InvalidOptimal optimal_setting))
  else Ok ("min", false).

(** The second half: [repeat], [overall] and [aggregator]. *)
Definition scoring_repeat (config : RawConfigParser)
  : result (Z * string * aggregator_fn) :=
  if has_option config "scoring" "repeat" then
    let* repeat_setting := config_get config "scoring" "repeat" in
    let '(head, sep, tail) := partition_comma repeat_setting in
    let* repeat :=
      match py_int head with
      | Ok n =>
          if n <? 1 then Raise (ConfigurationError InvalidRepeat) else Ok n
      | Raise ValueError => Raise (ConfigurationError InvalidRepeat)
      | Raise e => Raise e
      end in
    if String.eqb sep EmptyString then Ok (repeat, "min", py_min)
    else
      let agg_method := strip (lower tail) in
      match lookup_name agg_method aggregator_map with
      | Some f => Ok (repeat, agg_method, f)
      | None => Raise (ConfigurationError (InvalidAggregation agg_method))
      end
  else Ok (1, "min", py_min).

(** The tuple [_setup_scoring] returns. *)
Record scoring : Type := {
  sc_optimal : string;
  sc_custom_fom : bool;
  sc_repeat : Z;
  sc_overall : string;
  sc_aggregator : aggregator_fn
}.

Definition _setup_scoring (config : RawConfigParser) : result scoring :=
  let* oc := scoring_optimal config in
  let* roa := scoring_repeat config in
  let '(optimal, custom_fom) := oc in
  let '(repeat, overall, aggregator) := roa in
  Ok {| sc_optimal := optimal; sc_custom_fom := custom_fom;
        sc_repeat := repeat; sc_overall := overall;
        sc_aggregator := aggregator |}.

(** [config.get(section, name) if config.has_option(section, name) else
    None] *)
Definition optional_get (config : RawConfigParser) (section name : string)
  : result (option string) :=
  if has_option config section name then
    let* v := config_get config section name in Ok (Some v)
  else Ok None.

Definition _get_output_settings (config : RawConfigParser)
  : result (option string * option string * option string) :=
  let* log_file := optional_get config "output" "log" in
  let* script_file := optional_get config "output" "script" in
  let* importance_file := optional_get config "output" "importance" in
  Ok (log_file, script_file, importance_file).

(** The dictionary [get_settings] returns. *)
Record settings : Type := {
  vartree : string;
  possValues : gmap string (list string);
  compile : option string;
  compile_mkStr : option (Z -> dict -> string);
  test : option string;
  test_mkStr : option (Z -> dict -> string);
  clean : option string;
  clean_mkStr : option (Z -> dict -> string);
  optimal : string;
  custom_fom : bool;
  repeat : Z;
  overall : string;
  aggregator : aggregator_fn;
  log : option string;
  script : option string;
  importance : option string
}.

(** What is found at the path of the configuration file: nothing, a file
    the parser gives up on, or a file it reads. *)
Inductive config_file_state : Type :=
| NoFile
| Unparsable
| Parsed (config : RawConfigParser).

Section Tuner.
(** [vartree.get_variables], which is not part of these sources: the
    names of the variables of a variable tree, flattened. *)
Variable get_variables : string -> result (list string).

(** [files] is what the file system holds at each path. *)
Definition get_settings (files : string -> config_file_state)
    (config_file : string) : result settings :=
  match files config_file with
  | NoFile => Raise FileNotFoundError
  | Unparsable => Raise (ConfigurationError ReadFailed)
  | Parsed config =>
      let* _ := _validate_required_sections config in
      let* var_tree := _validate_variables_section config in
      let* variables := get_variables var_tree in
      let* poss_values := _validate_and_extract_values config variables in
      let* commands := _setup_commands config in
      let '(compile_info, test_info, clean_info) := commands in
      let* sc := _setup_scoring config in
      let* outs := _get_output_settings config in
      let '(log_file, script_file, importance_file) := outs in
      Ok {| vartree := var_tree;
            possValues := poss_values;
            compile := fst compile_info;
            compile_mkStr := snd compile_info;
            test := fst test_info;
            test_mkStr := snd test_info;
            clean := fst clean_info;
            clean_mkStr := snd clean_info;
            optimal := sc_optimal sc;
            custom_fom := sc_custom_fom sc;
            repeat := sc_repeat sc;
            overall := sc_overall sc;
            aggregator := sc_aggregator sc;
            log := log_file;
            script := script_file;
            importance := importance_file |}
  end.

(* ---------------------------------------------------------------- *)
(** ** tune.py: the tests of the parameter-importance sweep          *)
(* ---------------------------------------------------------------- *)

(** The inner loop of [_run_parameter_importance] over the values of
    one variable. *)
Definition importance_values (optimal_valuation : dict) (var : string)
    (values : list string) (tests : list dict) : list dict :=
  fold_left
    (fun tests val =>
       let test_config := dict_set optimal_valuation var val in
       if negb (dict_in test_config tests) then tests ++ [test_config]
       else tests)
    values tests.

(** The outer loop; [poss_values[var]] raises [KeyError] for a variable
    without values. *)
Definition importance_vars (poss_values : gmap string (list string))
    (optimal_valuation : dict) (vars_list : list string)
    (tests : list dict) : result (list dict) :=
  fold_left
    (fun acc var =>
       let* tests := acc in
       match poss_values !! var with
       | Some values =>
           Ok (importance_values optimal_valuation var values tests)
       | None => Raise KeyError
       end)
    vars_list (Ok tests).

(** The list [tests] that [_run_parameter_importance] hands to the
    importance evaluator. *)
Definition importance_tests (vartree : string)
    (poss_values : gmap string (list string)) (optimal_valuation : dict)
  : result (list dict) :=
  let* vars_list := get_variables vartree in
  importance_vars poss_values optimal_valuation vars_list [].
End Tuner.

(* ------------------------------------------------------------------ *)
(** ** output.py                                                       *)
(* ------------------------------------------------------------------ *)

(** The writable objects: [sys.stdout], a [WriteNull], a [FileWriter] on
    an open file, a [WriteMult] over other writers. *)
#[warnings="-register-all"]
Inductive writer : Type :=
| Stdout
| WriteNull
| FileWriter (filepath : string)
| WriteMult (writers : list writer).

(** The module-level variables [short], [full] and [all]; each starts as
    [None]. *)
Record outputs : Type := {
  short : option writer;
  full : option writer;
  all : option writer
}.

(** What the writers act on: which paths can be opened for writing, the
    text sent to the screen, the text of each opened file, and the
    records passed to [logging]. *)
Record world : Type := {
  can_open : string -> bool;
  screen : string;
  file_text : gmap string string;
  logged : list string
}.

(** [FileWriter(filepath, 'w')]: opening truncates the file; a file that
    cannot be opened raises [OSError]. *)
Definition FileWriter_init (filepath : string) (w : world)
  : result writer * world :=
  if can_open w filepath then
    (Ok (FileWriter filepath),
     {| can_open := can_open w; screen := screen w;
        file_text := <[filepath := EmptyString]> (file_text w);
        logged := logged w |})
  else (Raise OSError, w).

(** [wr.write(data)] *)
Fixpoint write (wr : writer) (data : string) (w : world) : world :=
  match wr with
  | Stdout =>
      {| can_open := can_open w; screen := screen w +:+ data;
         file_text := file_text w; logged := logged w |}
  | WriteNull => w
  | FileWriter filepath =>
      {| can_open := can_open w; screen := screen w;
         file_text :=
           <[filepath := default EmptyString (file_text w !! filepath) +:+ data]>
             (file_text w);
         logged := logged w |}
  | WriteMult writers =>
      (fix write_each (ws : list writer) (w : world) : world :=
         match ws with
         | [] => w
         | x :: ws' => write_each ws' (write x data w)
         end) writers w
  end.

(** Returns [True] or [False]; only an [OSError] is caught, any other
    exception leaves the function. *)
Definition output_production (log_file : string) (o : outputs) (w : world)
  : result bool * outputs * world :=
  match FileWriter_init log_file w with
  | (Ok file_writer, w') =>
      let short' := Stdout in
      let full' := file_writer in
      let all' := WriteMult [short'; full'] in
      (Ok true,
       {| short := Some short'; full := Some full'; all := Some all' |},
       w')
  | (Raise OSError, w') =>
      (Ok false, o,
       {| can_open := can_open w'; screen := screen w';
          file_text := file_text w';
          logged := logged w' ++ ["Failed to set up production output"] |})
  | (Raise e, w') => (Raise e, o, w')
  end.

(* ------------------------------------------------------------------ *)
(** ** helpers.py: ordinal                                             *)
(* ------------------------------------------------------------------ *)

(** [suffix_map.get(n % 10, 'th')] *)
Definition suffix_map_get (digit : Z) : string :=
  match digit with
  | 1 => "st"
  | 2 => "nd"
  | 3 => "rd"
  | _ => "th"
  end.

Definition ordinal (n : pyval) : result string :=
  match n with
  | VNum (PyInt n) =>
      if (10 <=? n mod 100) && (n mod 100 <? 20) then
        Ok (py_str_int n +:+ "th")
      else
        let suffix := suffix_map_get (n mod 10) in
        Ok (py_str_int n +:+ suffix)
  | _ => Raise TypeError
  end.

(* ------------------------------------------------------------------ *)
(** ** output.py: the other output modes                               *)
(* ------------------------------------------------------------------ *)

Definition output_screen (o : outputs) : outputs :=
  {| short := Some WriteNull; full := Some Stdout; all := Some Stdout |}.

Definition output_verbose (log_file : string) (o : outputs) (w : world)
  : result bool * outputs * world :=
  match FileWriter_init log_file w with
  | (Ok file_writer, w') =>
      let short' := WriteNull in
      let full' := WriteMult [Stdout; file_writer] in
      let all' := full' in
      (Ok true,
       {| short := Some short'; full := Some full'; all := Some all' |},
       w')
  | (Raise OSError, w') =>
      (Ok false, o,
       {| can_open := can_open w'; screen := screen w';
          file_text := file_text w';
          logged := logged w' ++ ["Failed to set up verbose output"] |})
  | (Raise e, w') => (Raise e, o, w')
  end.

(** [x or y] on writers: every writer object is true, [None] is not. *)
Definition writer_or (x : option writer) (y : writer) : writer :=
  match x with
  | Some wr => wr
  | None => y
  end.

Definition output_custom (short_writer full_writer all_writer : option writer)
    (o : outputs) : outputs :=
  let short' := writer_or short_writer WriteNull in
  let full' := writer_or full_writer Stdout in
  let all' := writer_or all_writer full' in
  {| short := Some short'; full := Some full'; all := Some all' |}.

Definition get_current_writers (o : outputs)
  : option writer * option writer * option writer :=
  (short o, full o, all o).

(* ------------------------------------------------------------------ *)
(** ** tune.py: setup_output                                           *)
(* ------------------------------------------------------------------ *)

(** How a function that can call [sys.exit] ends. *)
Inductive outcome (A : Type) : Type :=
| Returns (a : A)
| Exits (status : Z)
| Raises (e : exn).
Arguments Returns {A} a.
Arguments Exits {A} status.
Arguments Raises {A} e.

Definition newline : string := String (ascii_of_nat 10) EmptyString.

(** [print(text)], with [sys.stdout] still the screen. *)
Definition print (text : string) (w : world) : world :=
  write Stdout (text +:+ newline) w.

(** The [while True] loop of [setup_output].  Each element of [inputs]
    is what one call of [input] meets: a line, or [None] for Ctrl-C;
    when the input is at its end [input] raises [EOFError], which is
    not caught. *)
Fixpoint ask_to_continue (inputs : list (option string)) (w : world)
  : outcome bool * world :=
  let prompted := write Stdout "Do you want to continue anyway? [Y/n] " w in
  match inputs with
  | [] => (Raises (OtherError "EOFError"), prompted)
  | None :: _ => (Exits 0, print "Quitting" prompted)
  | Some line :: inputs' =>
      let response := lower line in
      if existsb (String.eqb response) ["y"; "yes"; "ye"; EmptyString] then
        (Returns false, prompted)
      else if existsb (String.eqb response) ["n"; "no"] then
        (Exits 0, print "Quitting" prompted)
      else
        ask_to_continue inputs' (print "Please enter 'y' or 'n'" prompted)
  end.

Definition setup_output (script_file : option string)
    (inputs : list (option string)) (o : outputs) (w : world)
  : outcome bool * outputs * world :=
  match script_file with
  | Some file =>
      match output_production file o w with
      | (Ok true, o1, w1) => (Returns true, o1, w1)
      | (Ok false, o1, w1) =>
          let o2 := output_screen o1 in
          let w2 :=
            print "No script will be saved."
                  (print ("Could not open script file '" +:+ file +:+ "'") w1) in
          let '(r, w3) := ask_to_continue inputs w2 in
          (r, o2, w3)
      | (Raise e, o1, w1) => (Raises e, o1, w1)
      end
  | None => (Returns true, output_screen o, w)
  end.

(* ------------------------------------------------------------------ *)
(** ** The vocabulary of the properties, and the examples              *)
(* ------------------------------------------------------------------ *)

(** [x] is not after [y] in the order of [ltb]: [y < x] does not hold. *)
Definition not_after {A : Type} (ltb : A -> A -> bool) (x y : A) : Prop :=
  ltb y x = false.

(** [x] is a number other than NaN. *)
Definition not_nan (x : num) : Prop := num_val x <> None.

(** [x <= y] on numbers other than NaN. *)
Definition num_le (x y : num) : Prop :=
  match num_val x, num_val y with
  | Some a, Some b => ext_compare a b <> Gt
  | _, _ => False
  end.

(** The float is one of binary64: the mantissa of a finite float has at
    most 53 bits, and exactly 53 unless the exponent is the smallest. *)
Definition is_double (f : spec_float) : Prop :=
  valid_binary mant_dig max_exp f = true.

(** A float holds the int [z] without rounding: [z] is [m * 2 ^ k] with
    a mantissa [m] of at most 53 bits, and lies below [2 ^ 1024]. *)
Definition exact_int (z : Z) : Prop :=
  exists m k : Z,
    z = m * 2 ^ k /\ Z.abs m < 2 ^ 53 /\ 0 <= k /\ Z.abs z < 2 ^ 1024.

(** The numbers [x] for which [float(x)] stands for what [x] stands
    for: the floats other than NaN, and the ints a float holds without
    rounding. *)
Definition exact (x : num) : Prop :=
  match x with
  | PyInt z => exact_int z
  | PyFloat f => is_double f /\ f <> S754_nan
  end.

(** The number is a float. *)
Definition is_float (x : num) : Prop := exists f, x = PyFloat f.

(** The argument is a non-empty list of numbers. *)
Definition numeric_nonempty (v : pyobj) : Prop :=
  exists l : list num, l <> [] /\ v = num_list l.

(** The argument is not a list. *)
Definition not_a_list (v : pyobj) : Prop := exists x, v = PyVal x.

(** The argument is a list that holds an element that is no number. *)
Definition has_non_numeric (v : pyobj) : Prop :=
  exists l x, v = PyList l /\ In x l /\ forall n, x <> VNum n.

(** [f] returns exactly on the non-empty lists of numbers, and then a
    float; it raises [ValueError] exactly on the empty list and
    [TypeError] exactly on what is not a list or holds a non-number. *)
Definition raises_iff (f : pyobj -> result pyval) : Prop :=
  forall v : pyobj,
    (numeric_nonempty v <-> exists q, f v = Ok (VNum (PyFloat q))) /\
    (forall r, f v = Ok r -> numeric_nonempty v) /\
    (v = PyList [] <-> f v = Raise ValueError) /\
    (not_a_list v \/ has_non_numeric v <-> f v = Raise TypeError).

(** The same with the third exception of the code: on a non-empty list
    of numbers [f] returns a float or raises [OverflowError], and does
    so on no other argument. *)
Definition raises_iff_overflow (f : pyobj -> result pyval) : Prop :=
  forall v : pyobj,
    (numeric_nonempty v <->
       (exists q, f v = Ok (VNum (PyFloat q))) \/ f v = Raise OverflowError) /\
    (forall r, f v = Ok r -> exists q, r = VNum (PyFloat q)) /\
    (v = PyList [] <-> f v = Raise ValueError) /\
    (not_a_list v \/ has_non_numeric v <-> f v = Raise TypeError) /\
    (forall e, f v = Raise e ->
               e = OverflowError \/ e = ValueError \/ e = TypeError).

(** The names of two items are in ascending order. *)
Definition name_le (x y : string * string) : Prop := String.le (fst x) (fst y).

(** A configuration whose [optimal] is written in upper case. *)
Definition upper_case_config : RawConfigParser :=
  {[ "scoring" := {[ "optimal" := "MIN" ]} ]}.

(** The value of an option, when the section has it. *)
Definition option_value (config : RawConfigParser) (section name : string)
  : option string :=
  match config_get config section name with
  | Ok value => Some value
  | Raise _ => None
  end.

(** A required section is missing. *)
Definition section_missing (config : RawConfigParser) : Prop :=
  exists section, In section required_sections /\
                  has_section config section = false.

(** A variable that the variable tree declares has no entry in the
    section [values]. *)
Definition declared_without_values
    (get_variables : string -> result (list string))
    (config : RawConfigParser) : Prop :=
  exists var_tree variables var,
    config_get config "variables" "variables" = Ok var_tree /\
    get_variables var_tree = Ok variables /\
    In var variables /\ has_option config "values" var = false.

(** The section [testing] has no option [test]. *)
Definition test_missing (config : RawConfigParser) : Prop :=
  has_option config "testing" "test" = false.

(** The only exception [get_variables] raises is [ConfigurationError]. *)
Definition raises_configuration_error_only
    (get_variables : string -> result (list string)) : Prop :=
  forall var_tree e, get_variables var_tree = Raise e ->
                     exists why, e = ConfigurationError why.

(** The setting of [optimal], when present, is one of the four up to
    case. *)
Definition optimal_valid (config : RawConfigParser) : Prop :=
  forall value, config_get config "scoring" "optimal" = Ok value ->
                In (lower value) optimal_settings.

(** The setting of [repeat], when present, is an integer of at least 1,
    alone or followed by a comma and one of the four aggregator names. *)
Definition repeat_valid (config : RawConfigParser) : Prop :=
  forall value, config_get config "scoring" "repeat" = Ok value ->
    (exists n, py_int (fst (fst (partition_comma value))) = Ok n /\ 1 <= n) /\
    (snd (fst (partition_comma value)) = EmptyString \/
     In (strip (lower (snd (partition_comma value))))
        ["max"; "min"; "med"; "avg"]).

(** A configuration that has all that [get_settings] asks for. *)
Definition well_formed (get_variables : string -> result (list string))
    (config : RawConfigParser) (var_tree : string) (variables : list string)
    (test_template : string) : Prop :=
  (forall section, In section required_sections ->
                   has_section config section = true) /\
  config_get config "variables" "variables" = Ok var_tree /\
  get_variables var_tree = Ok variables /\
  (forall var, In var variables -> has_option config "values" var = true) /\
  config_get config "testing" "test" = Ok test_template /\
  optimal_valid config /\ repeat_valid config.

(** What [get_settings] checks before it sets up the scoring. *)
Definition check_fails (get_variables : string -> result (list string))
    (config : RawConfigParser) : Prop :=
  section_missing config \/
  has_option config "variables" "variables" = false \/
  declared_without_values get_variables config \/
  test_missing config.

(** Modelled from the spec: [vartree.get_variables] is not among the
    sources.  The specification has it flatten the declared variable
    tree into the variable names in declaration order; this instance
    does so for a tree written with braces and commas, and serves the
    examples. *)
Fixpoint drop_braces (s : string) : string :=
  match s with
  | EmptyString => EmptyString
  | String c s' =>
      if Ascii.eqb c "{" || Ascii.eqb c "}" then drop_braces s'
      else String c (drop_braces s')
  end.

Definition flatten_names (var_tree : string) : result (list string) :=
  Ok (List.filter (fun name => negb (String.eqb name EmptyString))
                  (map strip (split_comma (drop_braces var_tree)))).

(** The configuration of the end-to-end scenario of the specification. *)
Definition example_config : RawConfigParser :=
  {[ "variables" := {[ "variables" := "{threads, blocks}" ]};
     "values" := {[ "threads" := "32, 64"; "blocks" := "16, 32" ]};
     "testing" := {[ "test" := "./bench %threads% %blocks% > out_%%ID%%" ]};
     "scoring" := {[ "optimal" := "min"; "repeat" := "3, min" ]};
     "output" := {[ "log" := "tune.csv" ]} ]}.

(** The same without the test command. *)
Definition example_config_no_test : RawConfigParser :=
  <[ "testing" := ∅ ]> example_config.

(** What the two loops do with one candidate: it joins the tests unless
    an equal one is there. *)
Definition add_test (tests : list dict) (test_config : dict) : list dict :=
  if negb (dict_in test_config tests) then tests ++ [test_config] else tests.

(** The candidates in the order the loops make them: for each variable
    of the tree, for each of its values, the optimum with that variable
    set to that value. *)
Definition candidates (poss_values : gmap string (list string))
    (optimal_valuation : dict) (vars_list : list string) : list dict :=
  flat_map
    (fun var => map (dict_set optimal_valuation var)
                    (default [] (poss_values !! var)))
    vars_list.

(** No test equals one that is before it in the list. *)
Definition first_occurrences (tests : list dict) : Prop :=
  forall before t after,
    tests = before ++ t :: after -> dict_in t before = false.

(** The domains of the scenario of the specification in which [blocks]
    is active only under [threads = 64]. *)
Definition example_poss_values : gmap string (list string) :=
  {[ "threads" := ["32"; "64"]; "blocks" := ["16"; "32"] ]}.

(** [t] is [s] with the occurrences of [old] replaced by [new], taken
    from the left and without overlap: either [old] does not occur in
    [s] and [t] is [s], or [s] is [before +:+ old +:+ after] at the
    leftmost occurrence of [old], and [t] is [before +:+ new] followed by
    what [after] becomes. *)
Inductive replaced (old new : string) : string -> string -> Prop :=
| replaced_none (s : string) :
    (forall before after, s <> before +:+ old +:+ after) ->
    replaced old new s s
| replaced_first (before after t : string) :
    (forall before' after',
       before +:+ old +:+ after = before' +:+ old +:+ after' ->
       (String.length before <= String.length before')%nat) ->
    replaced old new after t ->
    replaced old new (before +:+ old +:+ after) (before +:+ new +:+ t).

(** The placeholders of the variables of a valuation replaced one
    variable after the other, in the order of the valuation. *)
Inductive substituted : dict -> string -> string -> Prop :=
| substituted_nil (command : string) : substituted [] command command
| substituted_cons (var_name var_value : string) (var_dict : dict)
    (command command' command'' : string) :
    replaced ("%" +:+ var_name +:+ "%") var_value command command' ->
    substituted var_dict command' command'' ->
    substituted ((var_name, var_value) :: var_dict) command command''.

(** The command of a test: [%%ID%%] replaced by the test id in decimal,
    then the placeholders of the valuation. *)
Definition rendered (template : string) (test_id : Z) (var_dict : dict)
    (command : string) : Prop :=
  exists command0,
    replaced "%%ID%%" (py_str_int test_id) template command0 /\
    substituted var_dict command0 command.

(** The product of the lengths of the lists. *)
Definition sizes_product {T : Type} (list_of_lists : list (list T)) : nat :=
  fold_right Nat.mul 1%nat (map length list_of_lists).

(** [c] picks one element of each of the lists, in their order. *)
Definition picks_one_of_each {T : Type} (c : list T)
    (list_of_lists : list (list T)) : Prop :=
  Forall2 (fun e l => In e l) c list_of_lists.

(** The character [c] is in [s]. *)
Fixpoint has_char (c : ascii) (s : string) : bool :=
  match s with
  | EmptyString => false
  | String x s' => Ascii.eqb x c || has_char c s'
  end.

(** [s] has no whitespace at either end: [s.strip()] is [s]. *)
Definition stripped (s : string) : Prop := strip s = s.

(* ================================================================== *)
(** * Properties                                                       *)
(* ================================================================== *)

(* ------------------------------------------------------------------ *)
(** ** The examples of the docstrings                                  *)
(* ------------------------------------------------------------------ *)

Example strVarVals_docstring :
  strVarVals [("x", "1"); ("y", "2")] ", " = "x = 1, y = 2".
Proof. reflexivity. Qed.

Example med_docstring_odd :
  med (num_list [PyInt 1; PyInt 2; PyInt 3; PyInt 4; PyInt 5]) =
  Ok (VNum (PyFloat (float_lit 3 0))).
Proof. vm_compute. reflexivity. Qed.

Example med_docstring_even :
  med (num_list [PyInt 1; PyInt 2; PyInt 3; PyInt 4]) =
  Ok (VNum (PyFloat (float_lit 5 (-1)))).
Proof. vm_compute. reflexivity. Qed.

Example avg_docstring_ints :
  avg (num_list [PyInt 1; PyInt 2; PyInt 3; PyInt 4; PyInt 5]) =
  Ok (VNum (PyFloat (float_lit 3 0))).
Proof. vm_compute. reflexivity. Qed.

Example avg_docstring :
  avg (num_list [PyFloat (float_lit 5 (-1)); PyFloat (float_lit 15 (-1))]) =
  Ok (VNum (PyFloat (float_lit 5 0))).
Proof. vm_compute. reflexivity. Qed.

(** [float(2 ** 53 + 1)] is [2.0 ** 53]: the tie goes to the even
    mantissa. *)
Example float_of_int_rounds :
  float_of_int (2 ^ 53 + 1) = Ok (float_lit (2 ^ 53) 0).
Proof. vm_compute. reflexivity. Qed.

(** [float(10 ** 400)] raises, and so does the int just below
    [2 ** 1024] that is as near to it as to the largest float. *)
Example float_of_int_overflows :
  float_of_int (10 ^ 400) = Raise OverflowError /\
  float_of_int (2 ^ 1024 - 2 ^ 970) = Raise OverflowError /\
  float_of_int (2 ^ 1024 - 2 ^ 970 - 1) =
    Ok (S754_finite false 9007199254740991 971).
Proof. vm_compute. repeat split. Qed.

(** [med([1e308, 1e308])] is [inf]: the sum of the two floats is beyond
    the largest float. *)
Example med_of_large_floats :
  med (num_list [PyFloat (float_lit (10 ^ 308) 0);
                 PyFloat (float_lit (10 ^ 308) 0)]) =
  Ok (VNum (PyFloat (S754_infinity false))).
Proof. vm_compute. reflexivity. Qed.

Example med_of_strings_raises :
  med (PyList [VNum (PyInt 1); VStr "2"]) = Raise TypeError.
Proof. reflexivity. Qed.

Example make_command_string_example :
  make_command_string "./bench %threads% %blocks% > out_%%ID%%" 7
                      [("threads", "32"); ("blocks", "16")] =
  "./bench 32 16 > out_7".
Proof. reflexivity. Qed.

Example make_command_string_in_turn :
  make_command_string "%a% %b%" 0 [("a", "%b%"); ("b", "x")] = "x x".
Proof. reflexivity. Qed.

Example output_production_opens :
  let w := {| can_open := fun _ => true; screen := EmptyString;
              file_text := ∅; logged := [] |} in
  fst (output_production "run.log" {| short := None; full := None; all := None |} w) =
  (Ok true,
   {| short := Some Stdout; full := Some (FileWriter "run.log");
      all := Some (WriteMult [Stdout; FileWriter "run.log"]) |}).
Proof. reflexivity. Qed.

Example output_production_fails :
  let w := {| can_open := fun _ => false; screen := EmptyString;
              file_text := ∅; logged := [] |} in
  fst (output_production "run.log" {| short := None; full := None; all := None |} w) =
  (Ok false, {| short := None; full := None; all := None |}).
Proof. reflexivity. Qed.

(* ------------------------------------------------------------------ *)
(** ** The result monad                                                *)
(* ------------------------------------------------------------------ *)

Lemma bind_ok {A B : Type} (r : result A) (k : A -> result B) (b : B) :
  bind r k = Ok b -> exists a, r = Ok a /\ k a = Ok b.
Proof. destruct r as [a|e]; simpl; [eauto | discriminate]. Qed.

Lemma bind_raise {A B : Type} (r : result A) (k : A -> result B) (e : exn) :
  bind r k = Raise e -> r = Raise e \/ exists a, r = Ok a /\ k a = Raise e.
Proof. destruct r as [a|e']; simpl; [eauto | intros [= ->]; auto]. Qed.

(* ------------------------------------------------------------------ *)
(** ** sorted: a sorted permutation of its argument                    *)
(* ------------------------------------------------------------------ *)

(** The elements that satisfy [P] are those the order of [ltb] is total
    and transitive on. *)
Section InsertionSort.
Context {A : Type} (ltb : A -> A -> bool) (P : A -> Prop).

Hypothesis not_after_total :
  forall x y, P x -> P y -> not_after ltb x y \/ not_after ltb y x.
Hypothesis not_after_trans :
  forall x y z, P x -> P y -> P z ->
    not_after ltb x y -> not_after ltb y z -> not_after ltb x z.

Lemma insert_sorted_perm x l : Permutation (insert_sorted ltb x l) (x :: l).
Proof.
  induction l as [|y l IH]; simpl; [reflexivity|].
  destruct (ltb y x); [|reflexivity].
  rewrite IH. apply perm_swap.
Qed.

Lemma sorted_by_perm l : Permutation (sorted_by ltb l) l.
Proof.
  induction l as [|x l IH]; simpl; [reflexivity|].
  rewrite insert_sorted_perm. now constructor.
Qed.

Lemma sorted_by_length l : length (sorted_by ltb l) = length l.
Proof. apply Permutation_length, sorted_by_perm. Qed.

Lemma insert_sorted_sorted x l :
  P x -> Forall P l ->
  StronglySorted (not_after ltb) l ->
  StronglySorted (not_after ltb) (insert_sorted ltb x l).
Proof.
  intros Px Pl. induction 1 as [|y l Hl IH Hy]; simpl.
  - repeat constructor.
  - inversion Pl as [|? ? Py Pl']; subst.
    destruct (ltb y x) eqn:E.
    + constructor; [now apply IH|].
      assert (Hyx : not_after ltb y x).
      { destruct (not_after_total y x Py Px) as [H|H]; [exact H|].
        unfold not_after in H. congruence. }
      eapply Permutation_Forall; [symmetry; apply insert_sorted_perm|].
      constructor; assumption.
    + constructor; [constructor; assumption|].
      constructor; [exact E|].
      apply List.Forall_forall. intros z Hz.
      apply (not_after_trans x y z); auto.
      * eapply List.Forall_forall in Pl'; eauto.
      * eapply List.Forall_forall in Hy; eauto.
Qed.

Lemma sorted_by_sorted l :
  Forall P l -> StronglySorted (not_after ltb) (sorted_by ltb l).
Proof.
  induction 1 as [|x l Px Pl IH]; simpl; [constructor|].
  apply insert_sorted_sorted; [exact Px | | exact IH].
  eapply Permutation_Forall; [symmetry; apply sorted_by_perm | exact Pl].
Qed.
End InsertionSort.

(* ------------------------------------------------------------------ *)
(** ** Rounding to a float                                             *)
(* ------------------------------------------------------------------ *)

Lemma iter_pos_iter {A : Type} (f : A -> A) (p : positive) (x : A) :
  SpecFloat.iter_pos f p x = Pos.iter f x p.
Proof.
  revert x; induction p as [p IH|p IH|]; intros x; simpl.
  - rewrite !IH, !Pos.iter_swap. reflexivity.
  - rewrite !IH. reflexivity.
  - reflexivity.
Qed.

Lemma iter_xO (m d : positive) :
  Z.pos (Pos.iter xO m d) = Z.pos m * 2 ^ Z.pos d.
Proof.
  induction d as [|d IH] using Pos.peano_ind.
  - simpl. lia.
  - rewrite Pos.iter_succ, Pos2Z.inj_xO, IH, Pos2Z.inj_succ, Z.pow_succ_r by lia.
    ring.
Qed.

Lemma digits_bounds (p : positive) :
  2 ^ (Z.pos (digits2_pos p) - 1) <= Z.pos p < 2 ^ Z.pos (digits2_pos p).
Proof.
  induction p as [p IH|p IH|]; cbn [digits2_pos].
  - rewrite Pos2Z.inj_succ, (Pos2Z.inj_xI p).
    replace (Z.succ (Z.pos (digits2_pos p)) - 1) with (Z.succ (Z.pos (digits2_pos p) - 1)) by lia.
    rewrite !Z.pow_succ_r by lia.
    revert IH. generalize (2 ^ (Z.pos (digits2_pos p) - 1)), (2 ^ Z.pos (digits2_pos p)).
    intros; lia.
  - rewrite Pos2Z.inj_succ, (Pos2Z.inj_xO p).
    replace (Z.succ (Z.pos (digits2_pos p)) - 1) with (Z.succ (Z.pos (digits2_pos p) - 1)) by lia.
    rewrite !Z.pow_succ_r by lia.
    revert IH. generalize (2 ^ (Z.pos (digits2_pos p) - 1)), (2 ^ Z.pos (digits2_pos p)).
    intros; lia.
  - simpl. lia.
Qed.

Lemma digits_unique (p : positive) (d : Z) :
  2 ^ (d - 1) <= Z.pos p < 2 ^ d -> Z.pos (digits2_pos p) = d.
Proof.
  intros [Hlo Hhi]. pose proof (digits_bounds p) as [Hlo' Hhi'].
  assert (H1 : d - 1 < Z.pos (digits2_pos p)).
  { apply (Z.pow_lt_mono_r_iff 2); lia. }
  assert (H2 : Z.pos (digits2_pos p) - 1 < d).
  { destruct (Z.le_gt_cases d 0) as [Hd|Hd].
    - assert (2 ^ d <= 1); [|lia].
      destruct (Z.eq_dec d 0) as [->|Hd0];
        [rewrite Z.pow_0_r | rewrite Z.pow_neg_r]; lia.
    - apply (Z.pow_lt_mono_r_iff 2); lia. }
  lia.
Qed.

Lemma digits_shift (m q : positive) (k : Z) :
  0 <= k -> Z.pos q = Z.pos m * 2 ^ k ->
  Z.pos (digits2_pos q) = Z.pos (digits2_pos m) + k.
Proof.
  intros Hk Hq. apply digits_unique. rewrite Hq.
  pose proof (digits_bounds m) as [Hlo Hhi].
  replace (Z.pos (digits2_pos m) + k - 1) with (Z.pos (digits2_pos m) - 1 + k) by lia.
  rewrite !Z.pow_add_r by lia.
  assert (0 < 2 ^ k) by (apply Z.pow_pos_nonneg; lia).
  nia.
Qed.

Lemma shr_zeros (m d : positive) :
  Pos.iter shr_1 (Build_shr_record (Z.pos (Pos.iter xO m d)) false false) d =
  Build_shr_record (Z.pos m) false false.
Proof.
  induction d as [|d IH] using Pos.peano_ind.
  - reflexivity.
  - rewrite (Pos.iter_succ d _ xO), Pos.iter_succ, <- Pos.iter_swap.
    cbn [shr_1 orb]. exact IH.
Qed.

(** Rounding a mantissa that is the canonical one shifted left gives the
    canonical representation back. *)
Lemma binary_round_aux_exact (s : bool) (mz : Z) (e' : Z) (M : positive) (E : Z) :
  e' <= E -> mz = Z.pos M * 2 ^ (E - e') ->
  canonical_mantissa mant_dig max_exp M E = true ->
  E <= max_exp - mant_dig ->
  binary_round_aux mant_dig max_exp s mz e' loc_Exact = S754_finite s M E.
Proof.
  intros Hle Hmz Hcan HE.
  unfold canonical_mantissa in Hcan. apply Z.eqb_eq in Hcan.
  assert (Hpos : 0 < mz).
  { rewrite Hmz. apply Z.mul_pos_pos; [lia|]. apply Z.pow_pos_nonneg; lia. }
  destruct mz as [|q|q]; try lia.
  assert (Hd : Z.pos (digits2_pos q) = Z.pos (digits2_pos M) + (E - e')).
  { apply digits_shift; [lia | exact Hmz]. }
  assert (Hfirst : shr_fexp mant_dig max_exp (Z.pos q) e' loc_Exact =
                   (Build_shr_record (Z.pos M) false false, E)).
  { unfold shr_fexp. cbn [Zdigits2 shr_record_of_loc]. rewrite Hd.
    replace (Z.pos (digits2_pos M) + (E - e') + e') with (Z.pos (digits2_pos M) + E) by lia.
    rewrite Hcan. unfold shr.
    destruct (E - e') as [|k|k] eqn:Ek; try lia.
    - f_equal; [|lia]. f_equal. rewrite Hmz. simpl. lia.
    - rewrite iter_pos_iter.
      assert (Hq : q = Pos.iter xO M k).
      { apply Pos2Z.inj. rewrite iter_xO. exact Hmz. }
      rewrite Hq, shr_zeros. f_equal. lia. }
  unfold binary_round_aux. rewrite Hfirst.
  cbn [shr_m loc_of_shr_record round_nearest_even].
  unfold shr_fexp. cbn [Zdigits2 shr_record_of_loc]. rewrite Hcan, Z.sub_diag.
  cbn [shr shr_m].
  destruct (Z.leb_spec E (max_exp - mant_dig)); [reflexivity | lia].
Qed.

Lemma binary_round_exact (s : bool) (m : positive) (ex : Z) (M : positive) (E : Z) :
  (E <= ex -> Z.pos M = Z.pos m * 2 ^ (ex - E)) ->
  (ex <= E -> Z.pos m = Z.pos M * 2 ^ (E - ex)) ->
  canonical_mantissa mant_dig max_exp M E = true ->
  E <= max_exp - mant_dig ->
  binary_round mant_dig max_exp s m ex = S754_finite s M E.
Proof.
  intros Hshl Hshr Hcan HE.
  pose proof Hcan as Hcan'. unfold canonical_mantissa in Hcan'. apply Z.eqb_eq in Hcan'.
  unfold binary_round, shl_align.
  destruct (Z.le_gt_cases ex E) as [Hle|Hgt].
  - assert (Hd : Z.pos (digits2_pos m) + ex = Z.pos (digits2_pos M) + E).
    { rewrite (digits_shift M m (E - ex)); [lia | lia | auto]. }
    assert (Haux : binary_round_aux mant_dig max_exp s (Z.pos m) ex loc_Exact =
                   S754_finite s M E).
    { apply binary_round_aux_exact; auto. }
    rewrite Hd, Hcan'.
    destruct (E - ex) eqn:Ek; try lia; exact Haux.
  - assert (Hd : Z.pos (digits2_pos m) + ex = Z.pos (digits2_pos M) + E).
    { rewrite (digits_shift m M (ex - E)); [lia | lia | apply Hshl; lia]. }
    rewrite Hd, Hcan'.
    destruct (E - ex) as [|k|k] eqn:Ek; try lia.
    assert (HM : Pos.iter xO m k = M).
    { apply Pos2Z.inj. rewrite iter_xO, Hshl by lia. f_equal. f_equal. lia. }
    rewrite HM.
    apply binary_round_aux_exact; try assumption; [lia|].
    rewrite Z.sub_diag. simpl. lia.
Qed.

(** Division by a power of two only moves the exponent, as long as the
    quotient is a double. *)
Lemma SFdiv_pow2 (sx sy : bool) (mx : positive) (ex ey E : Z) :
  E = ex - ey - 52 ->
  canonical_mantissa mant_dig max_exp mx E = true ->
  E <= max_exp - mant_dig ->
  SFdiv mant_dig max_exp (S754_finite sx mx ex) (S754_finite sy 4503599627370496 ey) =
  S754_finite (xorb sx sy) mx E.
Proof.
  intros HE Hcan Hmax.
  pose proof Hcan as Hcan'. unfold canonical_mantissa in Hcan'. apply Z.eqb_eq in Hcan'.
  unfold SFdiv, SFdiv_core_binary.
  change (Zdigits2 4503599627370496) with 53.
  cbn [Zdigits2].
  set (d := Z.pos (digits2_pos mx)) in *.
  set (e' := Z.min (fexp mant_dig max_exp (d + ex - (53 + ey))) (ex - ey)).
  assert (He' : e' <= E).
  { unfold e', fexp, emin, mant_dig, max_exp in *. lia. }
  assert (He'' : e' <= ex - ey - 52).
  { lia. }
  assert (Hs : 52 <= ex - ey - e') by lia.
  destruct (ex - ey - e') as [|k|k] eqn:Ek; try lia.
  assert (Hdiv : Z.div_eucl (Z.shiftl (Z.pos mx) (Z.pos k)) 4503599627370496 =
                 (Z.pos mx * 2 ^ (E - e'), 0)).
  { rewrite Z.shiftl_mul_pow2 by lia.
    replace (Z.pos k) with ((E - e') + 52) by lia.
    rewrite Z.pow_add_r by lia. change (2 ^ 52) with 4503599627370496.
    rewrite Z.mul_assoc.
    pose proof (Z.div_eucl_eq (Z.pos mx * 2 ^ (E - e') * 4503599627370496) 4503599627370496 ltac:(lia)) as Heq.
    pose proof (Z.mod_pos_bound (Z.pos mx * 2 ^ (E - e') * 4503599627370496) 4503599627370496 ltac:(lia)) as Hb.
    unfold Z.modulo in Hb.
    destruct (Z.div_eucl _ _) as [q r]. f_equal; nia. }
  rewrite Hdiv.
  change (new_location 4503599627370496 0) with loc_Exact.
  apply binary_round_aux_exact; auto.
Qed.

Lemma shr_1_m (mrs : shr_record) :
  0 <= shr_m mrs -> shr_m (shr_1 mrs) = shr_m mrs / 2.
Proof.
  destruct mrs as [m r s]. cbn [shr_m]. intros Hm.
  destruct m as [|[p|p|]|p]; cbn [shr_1 shr_m]; try lia.
  - reflexivity.
  - rewrite (Pos2Z.inj_xI p). apply Z.div_unique with 1; lia.
  - rewrite (Pos2Z.inj_xO p). apply Z.div_unique with 0; lia.
  - reflexivity.
Qed.

Lemma shr_iter_m (mrs : shr_record) (n : positive) :
  0 <= shr_m mrs -> shr_m (Pos.iter shr_1 mrs n) = shr_m mrs / 2 ^ Z.pos n.
Proof.
  intros Hm. induction n as [|n IH] using Pos.peano_ind.
  - simpl. rewrite shr_1_m by exact Hm. reflexivity.
  - rewrite Pos.iter_succ, shr_1_m, IH.
    + rewrite Pos2Z.inj_succ, Z.pow_succ_r, Z.div_div by lia.
      f_equal. lia.
    + rewrite IH. apply Z.div_pos; [exact Hm|]. apply Z.pow_pos_nonneg; lia.
Qed.

Lemma round_nearest_even_bounds (m : Z) (l : location) :
  m <= round_nearest_even m l <= m + 1.
Proof.
  destruct l as [|[| |]]; cbn [round_nearest_even]; try lia.
  destruct (Z.even m); lia.
Qed.

(** Rounding an integer gives a double with a positive mantissa, or an
    infinity when the exponent is too large. *)
Lemma binary_round_int (s : bool) (m : positive) :
  exists M E,
    binary_round mant_dig max_exp s m 0 =
      (if E <=? max_exp - mant_dig then S754_finite s M E else S754_infinity s) /\
    canonical_mantissa mant_dig max_exp M E = true /\
    E <= Z.pos (digits2_pos m) - 52.
Proof.
  set (d := Z.pos (digits2_pos m)).
  pose proof (digits_bounds m) as Hm. fold d in Hm.
  assert (Hd1 : 1 <= d) by (unfold d; lia).
  destruct (Z.le_gt_cases d 53) as [Hsmall|Hbig].
  - (* the integer fits the mantissa *)
    assert (HM : exists M, Z.pos M = Z.pos m * 2 ^ (53 - d)).
    { destruct (53 - d) as [|k|k] eqn:Ek; try lia.
      - exists m. simpl. lia.
      - exists (Pos.iter xO m k). apply iter_xO. }
    destruct HM as [M HM].
    assert (HdM : Z.pos (digits2_pos M) = 53).
    { rewrite (digits_shift m M (53 - d)); [fold d; lia | lia | exact HM]. }
    assert (Hcan : canonical_mantissa mant_dig max_exp M (d - 53) = true).
    { unfold canonical_mantissa. apply Z.eqb_eq. rewrite HdM.
      unfold fexp, emin, mant_dig, max_exp. lia. }
    exists M, (d - 53). split; [|split; [exact Hcan | lia]].
    destruct (Z.leb_spec (d - 53) (max_exp - mant_dig)) as [Hle|Hgt];
      [|unfold max_exp, mant_dig in Hgt; lia].
    apply binary_round_exact; auto.
    + intros _. rewrite HM. f_equal. f_equal. lia.
    + intros Hge. assert (d = 53) by lia. subst d.
      replace (53 - Z.pos (digits2_pos m)) with 0 in HM by lia.
      replace (Z.pos (digits2_pos m) - 53 - 0) with 0 by lia.
      simpl in *. lia.
  - (* the low bits are shifted out and the mantissa rounded *)
    assert (Hn : exists n, Z.pos n = d - 53).
    { destruct (d - 53) as [|k|k] eqn:Ek; try lia. now exists k. }
    destruct Hn as [n Hn].
    assert (Hfexp : fexp mant_dig max_exp (d + 0) = Z.pos n).
    { unfold fexp, emin, mant_dig, max_exp. lia. }
    set (mrs := Pos.iter shr_1 (Build_shr_record (Z.pos m) false false) n).
    assert (Hm1 : 2 ^ 52 <= shr_m mrs < 2 ^ 53).
    { unfold mrs. rewrite shr_iter_m by (cbn; lia). cbn [shr_m].
      assert (Hp : 0 < 2 ^ Z.pos n) by (apply Z.pow_pos_nonneg; lia).
      replace d with (Z.pos n + 53) in Hm by lia.
      replace (Z.pos n + 53 - 1) with (Z.pos n + 52) in Hm by lia.
      rewrite !Z.pow_add_r in Hm by lia.
      split.
      - apply Z.div_le_lower_bound; lia.
      - apply Z.div_lt_upper_bound; lia. }
    pose proof (round_nearest_even_bounds (shr_m mrs) (loc_of_shr_record mrs)) as Hm2.
    set (m2 := round_nearest_even (shr_m mrs) (loc_of_shr_record mrs)) in *.
    assert (Hfirst : shr_fexp mant_dig max_exp (Z.pos m) 0 loc_Exact = (mrs, Z.pos n)).
    { unfold shr_fexp. cbn [Zdigits2 shr_record_of_loc]. fold d.
      rewrite Hfexp, Z.sub_0_r. unfold shr. rewrite iter_pos_iter. reflexivity. }
    assert (Hround : binary_round mant_dig max_exp s m 0 =
                     binary_round_aux mant_dig max_exp s (Z.pos m) 0 loc_Exact).
    { unfold binary_round, shl_align. fold d. rewrite Hfexp. reflexivity. }
    rewrite Hround. unfold binary_round_aux. rewrite Hfirst. fold m2.
    destruct m2 as [|p2|p2] eqn:Em2; try lia.
    destruct (Z.eq_dec (Z.pos p2) (2 ^ 53)) as [Hcarry|Hno].
    + (* the rounding carried into a 54th bit *)
      assert (Hp2 : p2 = 9007199254740992%positive) by (apply Pos2Z.inj; exact Hcarry).
      subst p2.
      exists 4503599627370496%positive, (Z.pos n + 1).
      split; [|split; [|lia]].
      * unfold shr_fexp. cbn [Zdigits2 shr_record_of_loc].
        change (Z.pos (digits2_pos 9007199254740992)) with 54.
        replace (fexp mant_dig max_exp (54 + Z.pos n) - Z.pos n) with 1
          by (unfold fexp, emin, mant_dig, max_exp; lia).
        reflexivity.
      * unfold canonical_mantissa. apply Z.eqb_eq.
        change (Z.pos (digits2_pos 4503599627370496)) with 53.
        unfold fexp, emin, mant_dig, max_exp. lia.
    + assert (Hd2 : Z.pos (digits2_pos p2) = 53).
      { apply digits_unique. change (53 - 1) with 52. lia. }
      exists p2, (Z.pos n).
      split; [|split; [|lia]].
      * unfold shr_fexp. cbn [Zdigits2 shr_record_of_loc]. rewrite Hd2.
        replace (fexp mant_dig max_exp (53 + Z.pos n) - Z.pos n) with 0
          by (unfold fexp, emin, mant_dig, max_exp; lia).
        reflexivity.
      * unfold canonical_mantissa. apply Z.eqb_eq. rewrite Hd2.
        unfold fexp, emin, mant_dig, max_exp. lia.
Qed.

(* ------------------------------------------------------------------ *)
(** ** The order of the numbers                                        *)
(* ------------------------------------------------------------------ *)

Lemma ext_compare_antisym (a b : ext) :
  ext_compare b a = CompOpp (ext_compare a b).
Proof.
  destruct a, b; simpl; try reflexivity.
  symmetry. apply Qcompare_antisym.
Qed.

Lemma ext_le_total (a b : ext) :
  ext_compare a b <> Gt \/ ext_compare b a <> Gt.
Proof.
  rewrite (ext_compare_antisym a b).
  destruct (ext_compare a b); simpl; [left | left | right]; discriminate.
Qed.

Lemma ext_le_trans (a b c : ext) :
  ext_compare a b <> Gt -> ext_compare b c <> Gt -> ext_compare a c <> Gt.
Proof.
  destruct a as [|p|], b as [|q|], c as [|r|]; simpl; try congruence.
  rewrite <- !Qle_alt. apply Qle_trans.
Qed.

Lemma ext_compare_refl (a : ext) : ext_compare a a = Eq.
Proof.
  destruct a as [|p|]; simpl; try reflexivity.
  apply Qeq_alt. reflexivity.
Qed.

Lemma num_not_after_le (x y : num) :
  not_nan x -> not_nan y -> (not_after num_ltb x y <-> num_le x y).
Proof.
  unfold not_nan, not_after, num_ltb, num_le, num_compare.
  destruct (num_val x) as [a|], (num_val y) as [b|]; try congruence.
  intros _ _. rewrite (ext_compare_antisym a b).
  destruct (ext_compare a b); simpl; split; congruence.
Qed.

Lemma num_le_refl (x : num) : not_nan x -> num_le x x.
Proof.
  unfold not_nan, num_le. destruct (num_val x) as [a|]; [|congruence].
  intros _. rewrite ext_compare_refl. discriminate.
Qed.

Lemma num_le_trans (x y z : num) : num_le x y -> num_le y z -> num_le x z.
Proof.
  unfold num_le.
  destruct (num_val x) as [a|], (num_val y) as [b|], (num_val z) as [c|];
    try contradiction.
  apply ext_le_trans.
Qed.

Lemma num_le_not_nan (x y : num) : num_le x y -> not_nan x /\ not_nan y.
Proof.
  unfold num_le, not_nan.
  destruct (num_val x), (num_val y); try contradiction.
  split; discriminate.
Qed.

Lemma num_ltb_lt (x y : num) :
  num_ltb x y = true -> num_le x y.
Proof.
  unfold num_ltb, num_le, num_compare.
  destruct (num_val x) as [a|], (num_val y) as [b|]; try discriminate.
  destruct (ext_compare a b); discriminate.
Qed.

Lemma num_ltb_ge (x y : num) :
  not_nan x -> not_nan y -> num_ltb x y = false -> num_le y x.
Proof. intros Hx Hy H. now apply num_not_after_le. Qed.

Lemma sorted_perm (l : list num) : Permutation (sorted l) l.
Proof. apply sorted_by_perm. Qed.

Lemma sorted_length (l : list num) : length (sorted l) = length l.
Proof. apply sorted_by_length. Qed.

Lemma sorted_ascending (l : list num) :
  Forall not_nan l -> StronglySorted num_le (sorted l).
Proof.
  intros Hl.
  assert (Hs : Forall not_nan (sorted l)).
  { eapply Permutation_Forall; [symmetry; apply sorted_perm | exact Hl]. }
  assert (H : StronglySorted (not_after num_ltb) (sorted l)).
  { apply (sorted_by_sorted num_ltb not_nan); [| |exact Hl].
    - intros x y Hx Hy. rewrite !num_not_after_le by assumption.
      unfold num_le, not_nan in *.
      destruct (num_val x) as [a|], (num_val y) as [b|]; try congruence.
      apply ext_le_total.
    - intros x y z Hx Hy Hz. rewrite !num_not_after_le by assumption.
      apply num_le_trans. }
  induction H as [|x s Hsorted IH Hx]; constructor.
  - apply IH. now inversion Hs.
  - inversion Hs as [|? ? Hnx Hns]; subst.
    apply List.Forall_forall. intros y Hy.
    apply num_not_after_le; [exact Hnx| |].
    + eapply List.Forall_forall in Hns; eauto.
    + eapply List.Forall_forall in Hx; eauto.
Qed.

(* ------------------------------------------------------------------ *)
(** ** float(): the conversion of an int                               *)
(* ------------------------------------------------------------------ *)

Lemma float_of_int_0 : float_of_int 0 = Ok (S754_zero false).
Proof. reflexivity. Qed.

Lemma float_of_int_1 :
  float_of_int 1 = Ok (S754_finite false 4503599627370496 (-52)).
Proof. vm_compute. reflexivity. Qed.

Lemma float_lit_2 : float_lit 2 0 = S754_finite false 4503599627370496 (-51).
Proof. vm_compute. reflexivity. Qed.

Lemma float_of_int_round (z : Z) (p : positive) :
  Z.pos p = Z.abs z ->
  binary_normalize mant_dig max_exp z 0 false =
  binary_round mant_dig max_exp (z <? 0) p 0.
Proof.
  destruct z as [|q|q]; simpl; intros H; try discriminate;
    injection H as ->; reflexivity.
Qed.

Lemma float_of_int_cases (z : Z) :
  (exists f, float_of_int z = Ok f) \/ float_of_int z = Raise OverflowError.
Proof.
  unfold float_of_int.
  destruct (binary_normalize mant_dig max_exp z 0 false); eauto.
Qed.

(** The float of an int other than [0] is finite and not a zero. *)
Lemma float_of_int_shape (z : Z) (f : spec_float) :
  z <> 0 -> float_of_int z = Ok f ->
  exists M E, f = S754_finite (z <? 0) M E /\
              canonical_mantissa mant_dig max_exp M E = true /\
              E <= max_exp - mant_dig /\
              E <= Z.pos (digits2_pos (Z.to_pos (Z.abs z))) - 52.
Proof.
  intros Hz. unfold float_of_int.
  assert (Hp : Z.pos (Z.to_pos (Z.abs z)) = Z.abs z) by (apply Z2Pos.id; lia).
  rewrite (float_of_int_round z _ Hp).
  destruct (binary_round_int (z <? 0) (Z.to_pos (Z.abs z))) as (M & E & -> & Hcan & HE).
  destruct (Z.leb_spec E (max_exp - mant_dig)) as [Hle|Hgt]; [|discriminate].
  intros [= <-]. exists M, E. auto.
Qed.

Lemma float_of_int_nonzero (z : Z) (f : spec_float) :
  z <> 0 -> float_of_int z = Ok f -> is_zero f = false.
Proof.
  intros Hz Hf. destruct (float_of_int_shape z f Hz Hf) as (M & E & -> & _).
  reflexivity.
Qed.

(** An int below [2 ** 1023] in magnitude has a float. *)
Lemma float_of_int_in_range (z : Z) :
  Z.abs z < 2 ^ 1023 -> exists f, float_of_int z = Ok f.
Proof.
  intros Hz. destruct (Z.eq_dec z 0) as [->|Hnz]; [eauto using float_of_int_0|].
  unfold float_of_int.
  assert (Hp : Z.pos (Z.to_pos (Z.abs z)) = Z.abs z) by (apply Z2Pos.id; lia).
  rewrite (float_of_int_round z _ Hp).
  destruct (binary_round_int (z <? 0) (Z.to_pos (Z.abs z))) as (M & E & -> & Hcan & HE).
  pose proof (digits_bounds (Z.to_pos (Z.abs z))) as [Hlo _].
  rewrite Hp in Hlo.
  assert (Hd : Z.pos (digits2_pos (Z.to_pos (Z.abs z))) - 1 < 1023).
  { apply (Z.pow_lt_mono_r_iff 2); lia. }
  destruct (Z.leb_spec E (max_exp - mant_dig)) as [Hle|Hgt]; [eauto|].
  unfold max_exp, mant_dig in Hgt. lia.
Qed.

(* ------------------------------------------------------------------ *)
(** ** What a finite float stands for                                  *)
(* ------------------------------------------------------------------ *)

Lemma Qpow2_nonneg (e : Z) : 0 <= e -> (2 ^ e == inject_Z (2 ^ e))%Q.
Proof. intros He. symmetry. apply (Zpower_Qpower 2 e He). Qed.

Lemma Qpow2_nonzero (e : Z) : ~ (2 ^ e == 0)%Q.
Proof. apply Qpower_not_0. discriminate. Qed.

Lemma Qpow2_plus (a b : Z) : (2 ^ (a + b) == 2 ^ a * 2 ^ b)%Q.
Proof. apply Qpower_plus. discriminate. Qed.

(** [M * 2 ^ E] is the integer [p]. *)
Lemma finite_val_int (M p : positive) (E : Z) :
  (E <= 0 -> Z.pos M = Z.pos p * 2 ^ (- E)) ->
  (0 <= E -> Z.pos p = Z.pos M * 2 ^ E) ->
  (inject_Z (Z.pos M) * 2 ^ E == inject_Z (Z.pos p))%Q.
Proof.
  intros Hneg Hpos. destruct (Z.le_gt_cases 0 E) as [HE|HE].
  - rewrite (Hpos HE), inject_Z_mult, Qpow2_nonneg by exact HE. reflexivity.
  - rewrite Hneg by lia. rewrite inject_Z_mult, <- Qpow2_nonneg by lia.
    rewrite <- Qmult_assoc, <- Qpow2_plus.
    replace (- E + E) with 0 by lia. simpl. apply Qmult_1_r.
Qed.

Lemma cond_Zopp_val (z : Z) (M : positive) (q : Q) :
  z <> 0 ->
  (inject_Z (Z.pos M) * q == inject_Z (Z.abs z))%Q ->
  (inject_Z (cond_Zopp (z <? 0) (Z.pos M)) * q == inject_Z z)%Q.
Proof.
  intros Hz H. destruct (Z.ltb_spec z 0) as [Hneg|Hpos]; unfold cond_Zopp.
  - rewrite inject_Z_opp.
    assert (E : (- inject_Z (Z.pos M) * q == - (inject_Z (Z.pos M) * q))%Q)
      by ring.
    rewrite E, H, <- inject_Z_opp.
    replace (- Z.abs z) with z by lia. reflexivity.
  - rewrite H. replace (Z.abs z) with z by lia. reflexivity.
Qed.

(** The float of an int that a float holds without rounding. *)
Lemma float_of_int_exact (z : Z) :
  exact_int z -> z <> 0 ->
  exists M E,
    float_of_int z = Ok (S754_finite (z <? 0) M E) /\
    Z.pos (digits2_pos M) = 53 /\ -52 <= E <= 971 /\
    (inject_Z (cond_Zopp (z <? 0) (Z.pos M)) * 2 ^ E == inject_Z z)%Q.
Proof.
  intros (m & k & Hz & Hm & Hk & Hbound) Hnz.
  assert (Hm0 : m <> 0) by (intros ->; apply Hnz; rewrite Hz; lia).
  assert (Hpow : 0 < 2 ^ k) by (apply Z.pow_pos_nonneg; lia).
  assert (Habs : Z.abs z = Z.abs m * 2 ^ k).
  { rewrite Hz, Z.abs_mul, (Z.abs_eq (2 ^ k)) by lia. reflexivity. }
  set (mm := Z.to_pos (Z.abs m)).
  set (p := Z.to_pos (Z.abs z)).
  assert (Hmm : Z.pos mm = Z.abs m) by (apply Z2Pos.id; lia).
  assert (Hp : Z.pos p = Z.abs z) by (apply Z2Pos.id; lia).
  pose proof (digits_bounds mm) as [Hlo1 _]. rewrite Hmm in Hlo1.
  set (d1 := Z.pos (digits2_pos mm)) in *.
  assert (Hd1 : 1 <= d1 <= 53).
  { split; [unfold d1; lia|].
    assert (d1 - 1 < 53); [|lia]. apply (Z.pow_lt_mono_r_iff 2); lia. }
  assert (HM : exists M, Z.pos M = Z.pos mm * 2 ^ (53 - d1)).
  { destruct (53 - d1) as [|j|j] eqn:Ej; try lia.
    - exists mm. rewrite Z.pow_0_r. lia.
    - exists (Pos.iter xO mm j). apply iter_xO. }
  destruct HM as [M HM].
  assert (HdM : Z.pos (digits2_pos M) = 53).
  { rewrite (digits_shift mm M (53 - d1)); [fold d1; lia | lia | exact HM]. }
  assert (Hdp : Z.pos (digits2_pos p) = d1 + k).
  { apply (digits_shift mm p k); [exact Hk|]. now rewrite Hp, Hmm. }
  pose proof (digits_bounds p) as [Hlop _]. rewrite Hp, Hdp in Hlop.
  assert (Hdk : d1 + k - 1 < 1024).
  { apply (Z.pow_lt_mono_r_iff 2); lia. }
  set (E := k + d1 - 53).
  assert (Hshl : E <= 0 -> Z.pos M = Z.pos p * 2 ^ (- E)).
  { intros HE. rewrite HM, Hp, Habs, Hmm, <- Z.mul_assoc, <- Z.pow_add_r by lia.
    f_equal. f_equal. unfold E. lia. }
  assert (Hshr : 0 <= E -> Z.pos p = Z.pos M * 2 ^ E).
  { intros HE. rewrite HM, Hp, Habs, Hmm, <- Z.mul_assoc, <- Z.pow_add_r by lia.
    f_equal. f_equal. unfold E. lia. }
  exists M, E. split; [|split; [exact HdM | split; [unfold E; lia|]]].
  - unfold float_of_int. rewrite (float_of_int_round z p Hp).
    rewrite (binary_round_exact (z <? 0) p 0 M E).
    + reflexivity.
    + intros HE. rewrite Z.sub_0_l. apply Hshl. exact HE.
    + intros HE. rewrite Z.sub_0_r. apply Hshr. exact HE.
    + unfold canonical_mantissa. apply Z.eqb_eq. rewrite HdM.
      unfold fexp, emin, mant_dig, max_exp, E. lia.
    + unfold max_exp, mant_dig, E. lia.
  - apply cond_Zopp_val; [exact Hnz|]. rewrite <- Hp.
    now apply finite_val_int.
Qed.

(** The ints up to [2 ** 53] in magnitude are among them. *)
Lemma small_int_exact (z : Z) : Z.abs z <= 2 ^ 53 -> exact_int z.
Proof.
  intros Hz. destruct (Z.eq_dec (Z.abs z) (2 ^ 53)) as [E|E].
  - exists (Z.sgn z), 53. rewrite <- E at 1.
    split; [|split; [|split]].
    + rewrite Z.mul_comm. symmetry. apply Z.abs_sgn.
    + apply Z.le_lt_trans with 1; [lia | reflexivity].
    + lia.
    + rewrite E. reflexivity.
  - exists z, 0. rewrite Z.pow_0_r.
    split; [lia | split; [lia | split; [lia|]]].
    eapply Z.le_lt_trans; [exact Hz | reflexivity].
Qed.

(* ------------------------------------------------------------------ *)
(** ** Float addition and division                                     *)
(* ------------------------------------------------------------------ *)

(** [f / 1.0] is [f]. *)
Lemma SFdiv_one (f : spec_float) :
  is_double f ->
  SFdiv mant_dig max_exp f (S754_finite false 4503599627370496 (-52)) = f.
Proof.
  destruct f as [s|s| |s m e]; intros Hf;
    try (destruct s; reflexivity); [reflexivity|].
  unfold is_double, valid_binary, bounded in Hf.
  apply andb_true_iff in Hf as [Hcan He]. apply Z.leb_le in He.
  rewrite (SFdiv_pow2 s false m e (-52) e); [|lia|exact Hcan|exact He].
  now rewrite xorb_false_r.
Qed.

(** [f / 2.0] only lowers the exponent of a float with a full
    mantissa, above the smallest exponent. *)
Lemma SFdiv_two (s : bool) (M : positive) (E : Z) :
  Z.pos (digits2_pos M) = 53 -> -1073 <= E <= 972 ->
  SFdiv mant_dig max_exp (S754_finite s M E)
        (S754_finite false 4503599627370496 (-51)) =
  S754_finite s M (E - 1).
Proof.
  intros HM HE.
  rewrite (SFdiv_pow2 s false M E (-51) (E - 1)).
  - now rewrite xorb_false_r.
  - lia.
  - unfold canonical_mantissa. apply Z.eqb_eq. rewrite HM.
    unfold fexp, emin, mant_dig, max_exp. lia.
  - unfold max_exp, mant_dig. lia.
Qed.

(** [0.0 + f] is [f], but for [-0.0], which gives [0.0]. *)
Lemma SFadd_zero_l (f : spec_float) :
  SFadd mant_dig max_exp (S754_zero false) f = f \/
  (f = S754_zero true /\
   SFadd mant_dig max_exp (S754_zero false) f = S754_zero false).
Proof. destruct f as [[|]|s| |s m e]; simpl; auto. Qed.

Lemma num_eqb_refl (x : num) : not_nan x -> num_eqb x x = true.
Proof.
  unfold not_nan, num_eqb, num_compare.
  destruct (num_val x) as [a|]; [|congruence].
  intros _. now rewrite ext_compare_refl.
Qed.

(* ------------------------------------------------------------------ *)
(** ** med and avg                                                     *)
(* ------------------------------------------------------------------ *)

Lemma validate_numeric_nums (l : list num) :
  validate_numeric (map VNum l) = Ok l.
Proof. induction l as [|x l IH]; simpl; [|rewrite IH]; reflexivity. Qed.

Lemma validate_numeric_ok (l : list pyval) (xs : list num) :
  validate_numeric l = Ok xs -> l = map VNum xs.
Proof.
  revert xs; induction l as [|v l IH]; intros xs H; simpl in H.
  - now inversion H.
  - destruct v as [n| |]; try discriminate.
    apply bind_ok in H as (ns & Hns & [= <-]).
    simpl. f_equal. now apply IH.
Qed.

Lemma validate_numeric_raise (l : list pyval) (e : exn) :
  validate_numeric l = Raise e ->
  e = TypeError /\ exists v, In v l /\ forall n, v <> VNum n.
Proof.
  induction l as [|v l IH]; simpl; [discriminate|].
  destruct v as [n|s|].
  - intros H. apply bind_raise in H as [H | (ns & _ & H)]; [|discriminate].
    destruct (IH H) as (-> & v & Hin & Hv). eauto.
  - intros [= <-]. split; [reflexivity|]. exists (VStr s). split; [auto|easy].
  - intros [= <-]. split; [reflexivity|]. exists VNone. split; [auto|easy].
Qed.

Lemma py_index_nth {A : Type} (l : list A) (i : nat) (x : A) :
  nth_error l i = Some x -> py_index l (Z.of_nat i) = Ok x.
Proof.
  intros H. unfold py_index.
  destruct (Z.ltb_spec (Z.of_nat i) 0) as [Hlt|_]; [lia|].
  destruct (Z.ltb_spec (Z.of_nat i) 0) as [Hlt|_]; [lia|].
  now rewrite Nat2Z.id, H.
Qed.

Lemma nth_error_in_range {A : Type} (l : list A) (i : nat) :
  (i < length l)%nat -> exists x, nth_error l i = Some x.
Proof.
  intros H. destruct (nth_error l i) eqn:E; [eauto|].
  apply nth_error_None in E. lia.
Qed.

(** [med] on a non-empty list of numbers, step by step. *)
Lemma med_nums (l : list num) :
  l <> [] ->
  med (num_list l) =
    let s := sorted l in
    let n := len s in
    if n mod 2 =? 1 then
      let* x := py_index s (n / 2) in
      let* f := py_float x in
      Ok (VNum (PyFloat f))
    else
      let* a := py_index s (n / 2 - 1) in
      let* b := py_index s (n / 2) in
      let* t := py_add a b in
      let* r := float_div t (PyFloat (float_lit 2 0)) in
      Ok (VNum (PyFloat r)).
Proof.
  intros Hne. destruct l as [|x l]; [contradiction|].
  unfold med, num_list. cbn [map].
  change (VNum x :: map VNum l) with (map VNum (x :: l)).
  now rewrite validate_numeric_nums.
Qed.

Lemma med_odd_length (l : list num) :
  Nat.odd (length l) = true ->
  exists x, nth_error (sorted l) (length l / 2) = Some x /\
            med (num_list l) = let* f := py_float x in Ok (VNum (PyFloat f)).
Proof.
  intros Hodd.
  assert (Hne : l <> []) by (intros ->; discriminate).
  rewrite (med_nums l Hne). cbv zeta.
  unfold len. rewrite sorted_length.
  rewrite Nat.odd_spec in Hodd. destruct Hodd as [k Hk].
  replace (Z.of_nat (length l) mod 2) with 1
    by (rewrite Hk, Nat2Z.inj_add, Nat2Z.inj_mul, Z.add_comm, Z.mul_comm,
          Z.mod_add by lia; reflexivity).
  change (1 =? 1) with true. cbv iota.
  replace (Z.of_nat (length l) / 2) with (Z.of_nat (length l / 2))
    by (rewrite Nat2Z.inj_div; reflexivity).
  destruct (nth_error_in_range (sorted l) (length l / 2)) as [x Hx].
  { rewrite sorted_length. apply Nat.div_lt; lia. }
  exists x. split; [exact Hx|].
  now rewrite (py_index_nth _ _ _ Hx).
Qed.

Lemma med_even_length (l : list num) :
  l <> [] -> Nat.even (length l) = true ->
  exists a b,
    nth_error (sorted l) (length l / 2 - 1) = Some a /\
    nth_error (sorted l) (length l / 2) = Some b /\
    med (num_list l) =
      let* t := py_add a b in
      let* r := float_div t (PyFloat (float_lit 2 0)) in
      Ok (VNum (PyFloat r)).
Proof.
  intros Hne Heven.
  assert (Hpos : (0 < length l)%nat) by (destruct l; [contradiction | simpl; lia]).
  rewrite (med_nums l Hne). cbv zeta.
  unfold len. rewrite sorted_length.
  rewrite Nat.even_spec in Heven. destruct Heven as [k Hk].
  replace (Z.of_nat (length l) mod 2) with 0
    by (rewrite Hk, Nat2Z.inj_mul, Z.mul_comm, Z.mod_mul by lia; reflexivity).
  change (0 =? 1) with false. cbv iota.
  replace (Z.of_nat (length l) / 2) with (Z.of_nat (length l / 2))
    by (rewrite Nat2Z.inj_div; reflexivity).
  assert (Hhalf : (length l / 2 = k)%nat).
  { rewrite Hk, Nat.mul_comm. apply Nat.div_mul. lia. }
  destruct (nth_error_in_range (sorted l) (length l / 2 - 1)) as [a Ha].
  { rewrite sorted_length. lia. }
  destruct (nth_error_in_range (sorted l) (length l / 2)) as [b Hb].
  { rewrite sorted_length. lia. }
  exists a, b.
  split; [exact Ha|]. split; [exact Hb|].
  replace (Z.of_nat (length l / 2) - 1) with (Z.of_nat (length l / 2 - 1)) by lia.
  now rewrite (py_index_nth _ _ _ Ha), (py_index_nth _ _ _ Hb).
Qed.

(** The conversions and operations of [med] and [avg] return, or raise
    [OverflowError]. *)
Lemma py_float_cases (x : num) :
  (exists f, py_float x = Ok f) \/ py_float x = Raise OverflowError.
Proof. destruct x as [z|f]; [apply float_of_int_cases | left; now exists f]. Qed.

Lemma py_add_cases (x y : num) :
  (exists r, py_add x y = Ok r) \/ py_add x y = Raise OverflowError.
Proof.
  destruct x as [a|f], y as [b|g]; cbn [py_add py_float bind]; eauto.
  - destruct (float_of_int_cases a) as [[fa ->] | ->]; cbn [bind]; eauto.
  - destruct (float_of_int_cases b) as [[fb ->] | ->]; cbn [bind]; eauto.
Qed.

Lemma float_div_cases (x y : num) :
  (forall b, py_float y = Ok b -> is_zero b = false) ->
  (exists r, float_div x y = Ok r) \/ float_div x y = Raise OverflowError.
Proof.
  intros Hy. unfold float_div.
  destruct (py_float_cases x) as [[a ->] | ->]; cbn [bind]; [|auto].
  destruct (py_float_cases y) as [[b Hb] | ->]; cbn [bind]; [|auto].
  rewrite Hb. cbn [bind]. rewrite (Hy b Hb). eauto.
Qed.

Lemma sum_loop_cases (l : list num) (total : num) :
  (exists r, sum_loop total l = Ok r) \/ sum_loop total l = Raise OverflowError.
Proof.
  revert total; induction l as [|x l IH]; intros total; cbn [sum_loop]; [eauto|].
  destruct (py_add_cases total x) as [[r ->] | ->]; cbn [bind]; auto.
Qed.

(** On a non-empty list of numbers [med] returns a float, or raises
    [OverflowError]. *)
Lemma med_outcome (l : list num) :
  l <> [] ->
  (exists f, med (num_list l) = Ok (VNum (PyFloat f))) \/
  med (num_list l) = Raise OverflowError.
Proof.
  intros Hne. destruct (Nat.odd (length l)) eqn:E.
  - destruct (med_odd_length l E) as (x & _ & ->).
    destruct (py_float_cases x) as [[f ->] | ->]; cbn [bind]; eauto.
  - destruct (med_even_length l Hne) as (a & b & _ & _ & ->).
    { now rewrite <- Nat.negb_odd, E. }
    destruct (py_add_cases a b) as [[t ->] | ->]; cbn [bind]; [|auto].
    destruct (float_div_cases t (PyFloat (float_lit 2 0))) as [[r ->] | ->];
      cbn [bind]; eauto.
    intros b' [= <-]. reflexivity.
Qed.

Lemma avg_nums (l : list num) :
  l <> [] ->
  avg (num_list l) =
    let* total := py_sum l in
    let* f := py_float total in
    let* r := float_div (PyFloat f) (PyInt (len l)) in
    Ok (VNum (PyFloat r)).
Proof.
  intros Hne. destruct l as [|x l]; [contradiction|].
  unfold avg, num_list. cbn [map].
  change (VNum x :: map VNum l) with (map VNum (x :: l)).
  now rewrite validate_numeric_nums.
Qed.

Lemma len_positive {A : Type} (l : list A) : l <> [] -> 0 < len l.
Proof. destruct l; [contradiction | unfold len; simpl; lia]. Qed.

Lemma avg_outcome (l : list num) :
  l <> [] ->
  (exists f, avg (num_list l) = Ok (VNum (PyFloat f))) \/
  avg (num_list l) = Raise OverflowError.
Proof.
  intros Hne. rewrite (avg_nums l Hne). unfold py_sum.
  destruct (sum_loop_cases l (PyInt 0)) as [[t ->] | ->]; cbn [bind]; [|auto].
  destruct (py_float_cases t) as [[f ->] | ->]; cbn [bind]; [|auto].
  destruct (float_div_cases (PyFloat f) (PyInt (len l))) as [[r ->] | ->];
    cbn [bind]; eauto.
  intros b Hb. apply (float_of_int_nonzero (len l)); [|exact Hb].
  pose proof (len_positive l Hne). lia.
Qed.

(** The float of a number that a float holds without rounding stands
    for the same number. *)
Lemma exact_not_nan (x : num) : exact x -> not_nan x.
Proof.
  destruct x as [z|f]; [discriminate|].
  intros [_ Hf]. destruct f; try discriminate. contradiction.
Qed.

Lemma py_float_exact (x : num) :
  exact x ->
  exists f, py_float x = Ok f /\ is_double f /\ num_eqb (PyFloat f) x = true.
Proof.
  intros Hx. destruct x as [z|f]; cbn [py_float].
  - destruct (Z.eq_dec z 0) as [->|Hz].
    + exists (S754_zero false). repeat split.
    + destruct (float_of_int_exact z Hx Hz) as (M & E & -> & HM & HE & Hval).
      eexists. split; [reflexivity|]. split.
      * unfold is_double, valid_binary, bounded, canonical_mantissa.
        rewrite HM. apply andb_true_iff. split; [apply Z.eqb_eq | apply Z.leb_le];
          unfold fexp, emin, mant_dig, max_exp; lia.
      * unfold num_eqb, num_compare. cbn [num_val float_val ext_compare].
        apply Qeq_alt in Hval. now rewrite Hval.
  - exists f. split; [reflexivity|]. split; [apply Hx|].
    apply num_eqb_refl. now apply exact_not_nan.
Qed.

Lemma med_single (x : num) :
  exists y, y = x /\
    med (num_list [x]) = let* f := py_float y in Ok (VNum (PyFloat f)).
Proof.
  destruct (med_odd_length [x] eq_refl) as (y & Hy & Hmed).
  injection Hy as <-. eauto.
Qed.

Lemma avg_single (x : num) :
  exact x ->
  exists r, avg (num_list [x]) = Ok (VNum (PyFloat r)) /\
            num_eqb (PyFloat r) x = true.
Proof.
  intros Hx. rewrite avg_nums by discriminate.
  unfold py_sum, float_div, len. cbn [sum_loop length].
  change (Z.of_nat 1) with 1.
  destruct x as [z|f].
  - cbn [py_add bind]. change (0 + z) with z.
    destruct (py_float_exact (PyInt z) Hx) as (f & Hf & Hd & He).
    rewrite Hf. cbn [bind py_float]. rewrite float_of_int_1. cbn [bind is_zero].
    rewrite SFdiv_one by exact Hd. eauto.
  - cbn [py_add py_float bind]. rewrite float_of_int_0. cbn [bind py_float].
    rewrite float_of_int_1. cbn [bind is_zero].
    destruct Hx as [Hd Hn].
    destruct (SFadd_zero_l f) as [E | [E1 E2]].
    + rewrite E, SFdiv_one by exact Hd. eexists. split; [reflexivity|].
      apply num_eqb_refl. now apply (exact_not_nan (PyFloat f)).
    + rewrite E2, E1. eexists. split; reflexivity.
Qed.

(** Half the sum of two ints whose sum a float holds without rounding:
    the float that stands for the rational [(a + b) / 2]. *)
Lemma half_of_int_sum (za zb : Z) :
  exact_int (za + zb) ->
  exists f q,
    (let* t := py_add (PyInt za) (PyInt zb) in
     let* r := float_div t (PyFloat (float_lit 2 0)) in
     Ok (VNum (PyFloat r))) = Ok (VNum (PyFloat f)) /\
    float_val f = Some (Finite q) /\
    (q == inject_Z (za + zb) / 2)%Q.
Proof.
  intros Hx. cbn [py_add bind]. unfold float_div. cbn [py_float bind].
  rewrite float_lit_2. cbn [is_zero].
  destruct (Z.eq_dec (za + zb) 0) as [Hz|Hz].
  - rewrite Hz, float_of_int_0. cbn [bind].
    exists (S754_zero false), 0%Q. repeat split.
  - destruct (float_of_int_exact _ Hx Hz) as (M & E & -> & HM & HE & Hval).
    cbn [bind]. rewrite SFdiv_two by (auto; lia).
    eexists. eexists. split; [reflexivity|]. split; [reflexivity|].
    replace (E - 1) with (E + -1) by lia.
    rewrite Qpow2_plus, Qmult_assoc, Hval. reflexivity.
Qed.

(** The loop of [min] over numbers other than NaN ends on an element
    that is not larger than any other. *)
Lemma min_loop_nums (l : list num) (cur : num) :
  not_nan cur -> Forall not_nan l ->
  exists m, min_loop (VNum cur) (map VNum l) = Ok (VNum m) /\
            In m (cur :: l) /\ Forall (num_le m) (cur :: l).
Proof.
  revert cur; induction l as [|x l IH]; intros cur Hc Hl; cbn [map min_loop].
  - exists cur. split; [reflexivity|]. split; [now left|].
    constructor; [now apply num_le_refl | constructor].
  - inversion Hl as [|? ? Hx Hl']; subst.
    cbn [py_lt bind]. destruct (num_ltb x cur) eqn:E.
    + destruct (IH x Hx Hl') as (m & Hm & Hin & Hall). exists m.
      split; [exact Hm|]. split; [right; exact Hin|].
      inversion Hall as [|? ? Hmx Hml]; subst.
      constructor; [|constructor; assumption].
      eapply num_le_trans; [exact Hmx | apply num_ltb_lt; exact E].
    + destruct (IH cur Hc Hl') as (m & Hm & Hin & Hall). exists m.
      split; [exact Hm|]. split; [destruct Hin; [now left | now right; right]|].
      inversion Hall as [|? ? Hmc Hml]; subst.
      constructor; [assumption|]. constructor; [|assumption].
      eapply num_le_trans; [exact Hmc | apply num_ltb_ge; [exact Hx | exact Hc | exact E]].
Qed.

Lemma max_loop_nums (l : list num) (cur : num) :
  not_nan cur -> Forall not_nan l ->
  exists m, max_loop (VNum cur) (map VNum l) = Ok (VNum m) /\
            In m (cur :: l) /\ Forall (fun x => num_le x m) (cur :: l).
Proof.
  revert cur; induction l as [|x l IH]; intros cur Hc Hl; cbn [map max_loop].
  - exists cur. split; [reflexivity|]. split; [now left|].
    constructor; [now apply num_le_refl | constructor].
  - inversion Hl as [|? ? Hx Hl']; subst.
    cbn [py_lt bind]. destruct (num_ltb cur x) eqn:E.
    + destruct (IH x Hx Hl') as (m & Hm & Hin & Hall). exists m.
      split; [exact Hm|]. split; [right; exact Hin|].
      inversion Hall as [|? ? Hxm Hml]; subst.
      constructor; [|constructor; assumption].
      eapply num_le_trans; [apply num_ltb_lt; exact E | exact Hxm].
    + destruct (IH cur Hc Hl') as (m & Hm & Hin & Hall). exists m.
      split; [exact Hm|]. split; [destruct Hin; [now left | now right; right]|].
      inversion Hall as [|? ? Hcm Hml]; subst.
      constructor; [assumption|]. constructor; [|assumption].
      eapply num_le_trans; [apply num_ltb_ge; [exact Hc | exact Hx | exact E] | exact Hcm].
Qed.

(** Each of the four aggregators, applied to a list that holds the one
    number [x], returns a number equal to [x], when [float(x)] is. *)
Lemma aggregator_single (name : string) (f : aggregator_fn) (x : num) :
  lookup_name name aggregator_map = Some f ->
  exact x ->
  exists r, f (num_list [x]) = Ok r /\ py_eq r (VNum x) = true.
Proof.
  intros Hf Hx. pose proof (exact_not_nan x Hx) as Hn.
  revert Hf. unfold aggregator_map. cbn [lookup_name].
  repeat (destruct (String.eqb _ name);
          [intros [= <-] | ]); try discriminate.
  - exists (VNum x). split; [reflexivity | now apply num_eqb_refl].
  - exists (VNum x). split; [reflexivity | now apply num_eqb_refl].
  - destruct (med_single x) as (y & -> & ->).
    destruct (py_float_exact x Hx) as (g & -> & _ & He).
    eexists. split; [reflexivity | exact He].
  - destruct (avg_single x Hx) as (r & -> & He).
    eexists. split; [reflexivity | exact He].
Qed.

(** C1, as the code has it: for every non-empty list of numbers other
    than NaN, [med] sorts the list into an ascending permutation.  When
    the length is odd it returns [float(x)] of the sole central element
    [x], a float equal to [x] when a float holds [x] without rounding.
    When the length is even it returns [(a + b) / 2.0] of the two
    central elements, with the sum and the quotient of floats rounded
    and never a truncated integer quotient: for two ints whose sum a
    float holds without rounding it is the float that stands for the
    rational [(a + b) / 2].  It returns a float unless the conversion of
    an int raises [OverflowError]. *)
Theorem med_central_element (l : list num) :
  l <> [] -> Forall not_nan l ->
  let s := sorted l in
  let n := length l in
  Permutation s l /\ StronglySorted num_le s /\
  (Nat.odd n = true ->
   exists x, nth_error s (n / 2) = Some x /\
     med (num_list l) = (let* f := py_float x in Ok (VNum (PyFloat f))) /\
     (exact x ->
      exists f, med (num_list l) = Ok (VNum (PyFloat f)) /\
                num_eqb (PyFloat f) x = true)) /\
  (Nat.even n = true ->
   exists a b,
     nth_error s (n / 2 - 1) = Some a /\ nth_error s (n / 2) = Some b /\
     med (num_list l) =
       (let* t := py_add a b in
        let* r := float_div t (PyFloat (float_lit 2 0)) in
        Ok (VNum (PyFloat r))) /\
     (forall za zb : Z,
        a = PyInt za -> b = PyInt zb -> exact_int (za + zb) ->
        exists f q, med (num_list l) = Ok (VNum (PyFloat f)) /\
                    float_val f = Some (Finite q) /\
                    (q == inject_Z (za + zb) / 2)%Q)) /\
  ((exists f, med (num_list l) = Ok (VNum (PyFloat f))) \/
   med (num_list l) = Raise OverflowError).
Proof.
  intros Hne Hnan s n.
  split; [apply sorted_perm|]. split; [now apply sorted_ascending|].
  split; [|split; [|now apply med_outcome]].
  - intros Hodd. destruct (med_odd_length l Hodd) as (x & Hx & Hmed).
    exists x. split; [exact Hx|]. split; [exact Hmed|].
    intros Hex. destruct (py_float_exact x Hex) as (f & Hf & _ & He).
    exists f. split; [|exact He]. now rewrite Hmed, Hf.
  - intros Heven. destruct (med_even_length l Hne Heven) as (a & b & Ha & Hb & Hmed).
    exists a, b. split; [exact Ha|]. split; [exact Hb|]. split; [exact Hmed|].
    intros za zb -> -> Hex. rewrite Hmed. now apply half_of_int_sum.
Qed.

Lemma med_central_element_witness :
  let l := [PyInt 4; PyFloat (float_lit 1 0); PyInt 3; PyInt 2] in
  let s := sorted l in
  Permutation s l /\ StronglySorted num_le s /\
  exists f q, med (num_list l) = Ok (VNum (PyFloat f)) /\
              float_val f = Some (Finite q) /\ (q == 5 # 2)%Q.
Proof.
  assert (Hne : [PyInt 4; PyFloat (float_lit 1 0); PyInt 3; PyInt 2] <> [])
    by discriminate.
  assert (Hnan : Forall not_nan
                   [PyInt 4; PyFloat (float_lit 1 0); PyInt 3; PyInt 2])
    by (repeat constructor; discriminate).
  destruct (med_central_element
              [PyInt 4; PyFloat (float_lit 1 0); PyInt 3; PyInt 2] Hne Hnan)
    as (Hperm & Hsorted & _ & Heven & _).
  split; [exact Hperm|]. split; [exact Hsorted|].
  destruct (Heven eq_refl) as (a & b & Ha & Hb & _ & Hval).
  vm_compute in Ha. vm_compute in Hb.
  injection Ha as <-. injection Hb as <-.
  destruct (Hval 2 3 eq_refl eq_refl) as (f & q & Hf & Hq & Hmean).
  - apply small_int_exact. vm_compute. discriminate.
  - exists f, q. split; [exact Hf|]. split; [exact Hq|]. exact Hmean.
Defined.

(** C1, as the claim states it, fails on a list whose central element
    is an int beyond the largest float: [med([10 ** 400])] raises
    [OverflowError] and returns nothing. *)
Lemma med_overflows :
  ~ (forall l : list num,
       l <> [] -> exists f, med (num_list l) = Ok (VNum (PyFloat f))).
Proof.
  intros H. destruct (H [PyInt (10 ^ 400)]) as [f Hf]; [discriminate|].
  vm_compute in Hf. discriminate.
Qed.

(* ------------------------------------------------------------------ *)
(** ** The aggregators the settings loader wires                       *)
(* ------------------------------------------------------------------ *)

Lemma scoring_repeat_aggregator (config : RawConfigParser)
    (r : Z) (o : string) (a : aggregator_fn) :
  scoring_repeat config = Ok (r, o, a) ->
  lookup_name o aggregator_map = Some a /\ 1 <= r.
Proof.
  unfold scoring_repeat.
  destruct (has_option config "scoring" "repeat").
  - intros H. apply bind_ok in H as (setting & _ & H).
    destruct (partition_comma setting) as [[head sep] tail].
    apply bind_ok in H as (n & Hn & H).
    assert (Hge : 1 <= n).
    { destruct (py_int head) as [k|e].
      - destruct (Z.ltb_spec k 1); [discriminate|]. injection Hn as <-. lia.
      - destruct e; discriminate. }
    destruct (String.eqb sep EmptyString).
    + injection H as <- <- <-. split; [reflexivity | exact Hge].
    + destruct (lookup_name (strip (lower tail)) aggregator_map) as [f|] eqn:E;
        [|discriminate].
      injection H as <- <- <-. split; [exact E | exact Hge].
  - intros [= <- <- <-]. split; [reflexivity | lia].
Qed.

Lemma setup_scoring_ok (config : RawConfigParser) (sc : scoring) :
  _setup_scoring config = Ok sc ->
  scoring_optimal config = Ok (sc_optimal sc, sc_custom_fom sc) /\
  scoring_repeat config = Ok (sc_repeat sc, sc_overall sc, sc_aggregator sc).
Proof.
  unfold _setup_scoring. intros H.
  apply bind_ok in H as ([opt fom] & Ho & H).
  apply bind_ok in H as ([[r o] a] & Hr & H).
  injection H as <-. simpl. auto.
Qed.

(** C2, as the code has it: the aggregator laws.  [avg([x]) == x] for
    every number [x] that [float(x)] stands for: every float other than
    NaN, every int a float holds without rounding;
    [med([1, 2, 3, 4]) == 2.5]; the aggregator that the settings loader
    returns is the one its name selects, so that the names [min] and
    [max] select the built-ins [min] and [max], which return a smallest
    and a largest element of a list of numbers other than NaN; each of
    the four aggregators returns, on a list with one such number [x], a
    number equal to it. *)
Theorem aggregator_laws :
  (forall x : num,
     exact x ->
     exists r, avg (num_list [x]) = Ok r /\ py_eq r (VNum x) = true) /\
  (exists r, med (num_list [PyInt 1; PyInt 2; PyInt 3; PyInt 4]) = Ok r /\
             py_eq r (VNum (PyFloat (float_lit 5 (-1)))) = true) /\
  (forall (config : RawConfigParser) (sc : scoring),
     _setup_scoring config = Ok sc ->
     lookup_name (sc_overall sc) aggregator_map = Some (sc_aggregator sc) /\
     (sc_overall sc = "min" -> sc_aggregator sc = py_min) /\
     (sc_overall sc = "max" -> sc_aggregator sc = py_max)) /\
  (forall (x : num) (l : list num),
     Forall not_nan (x :: l) ->
     (exists m, py_min (num_list (x :: l)) = Ok (VNum m) /\
                In m (x :: l) /\ Forall (num_le m) (x :: l)) /\
     (exists m, py_max (num_list (x :: l)) = Ok (VNum m) /\
                In m (x :: l) /\ Forall (fun y => num_le y m) (x :: l))) /\
  (forall (name : string) (f : aggregator_fn) (x : num),
     lookup_name name aggregator_map = Some f ->
     exact x ->
     exists r, f (num_list [x]) = Ok r /\ py_eq r (VNum x) = true).
Proof.
  split; [|split; [|split; [|split]]].
  - intros x Hx. now apply (aggregator_single "avg").
  - eexists. split; [vm_compute; reflexivity | vm_compute; reflexivity].
  - intros config sc H. apply setup_scoring_ok in H as [_ H].
    apply scoring_repeat_aggregator in H as [H _].
    split; [exact H|].
    split; intros E; rewrite E in H; cbn in H; congruence.
  - intros x l Hl. inversion Hl as [|? ? Hx Hl']; subst.
    split; [now apply min_loop_nums | now apply max_loop_nums].
  - apply aggregator_single.
Qed.

Lemma aggregator_laws_witness :
  (exists sc, _setup_scoring example_config = Ok sc /\
              sc_aggregator sc = py_min) /\
  (exists r, avg (num_list [PyInt 7]) = Ok r /\ py_eq r (VNum (PyInt 7)) = true) /\
  (exists m, py_max (num_list [PyInt 2; PyFloat (float_lit 5 (-1)); PyInt 1]) =
             Ok (VNum m) /\
             num_le (PyInt 2) m).
Proof.
  destruct aggregator_laws as (Havg & _ & Hloader & Hminmax & _).
  split; [|split].
  - eexists. split; [reflexivity|].
    apply (Hloader example_config); reflexivity.
  - apply (Havg (PyInt 7)). apply small_int_exact. vm_compute. discriminate.
  - destruct (Hminmax (PyInt 2) [PyFloat (float_lit 5 (-1)); PyInt 1])
      as [_ (m & Hm & _ & Hall)].
    + repeat constructor; discriminate.
    + exists m. split; [exact Hm|]. now inversion Hall.
Defined.

(** C2, as the claim states it, fails on an int that no float holds:
    [avg([2 ** 53 + 1])] is [9007199254740992.0], which is not equal to
    [2 ** 53 + 1]. *)
Lemma avg_rounds_large_int :
  ~ (forall x : num,
       exists r, avg (num_list [x]) = Ok r /\ py_eq r (VNum x) = true).
Proof.
  intros H. destruct (H (PyInt (2 ^ 53 + 1))) as (r & Hr & He).
  vm_compute in Hr. injection Hr as <-.
  vm_compute in He. discriminate.
Qed.

(* ------------------------------------------------------------------ *)
(** ** When med and avg raise                                          *)
(* ------------------------------------------------------------------ *)

Lemma validate_numeric_non_numeric (l : list pyval) (x : pyval) :
  In x l -> (forall n, x <> VNum n) -> validate_numeric l = Raise TypeError.
Proof.
  induction l as [|v l IH]; [contradiction|].
  intros [->|Hin] Hx; simpl.
  - destruct x as [n| |]; [now destruct (Hx n) | reflexivity | reflexivity].
  - destruct v as [n| |]; [|reflexivity|reflexivity].
    now rewrite (IH Hin Hx).
Qed.

Lemma classify_argument (v : pyobj) :
  numeric_nonempty v \/ v = PyList [] \/ not_a_list v \/ has_non_numeric v.
Proof.
  destruct v as [x|l].
  - right; right; left. now exists x.
  - destruct l as [|y l]; [now right; left|].
    destruct (validate_numeric (y :: l)) as [xs|e] eqn:E.
    + left. exists xs. apply validate_numeric_ok in E.
      split; [|unfold num_list; now rewrite E].
      intros ->. discriminate.
    + right; right; right.
      apply validate_numeric_raise in E as (_ & x & Hin & Hx).
      now exists (y :: l), x.
Qed.

Lemma type_error_cases (f : pyobj -> result pyval) :
  (forall x, f (PyVal x) = Raise TypeError) ->
  (forall y l, f (PyList (y :: l)) =
               let* xs := validate_numeric (y :: l) in
               f (num_list xs)) ->
  forall v, not_a_list v \/ has_non_numeric v -> f v = Raise TypeError.
Proof.
  intros Hval Hlist v [[x ->] | (l & x & -> & Hin & Hx)]; [apply Hval|].
  destruct l as [|y l]; [contradiction|].
  now rewrite Hlist, (validate_numeric_non_numeric _ x Hin Hx).
Qed.

Lemma raises_iff_overflow_intro (f : pyobj -> result pyval) :
  (forall v, numeric_nonempty v ->
     (exists q, f v = Ok (VNum (PyFloat q))) \/ f v = Raise OverflowError) ->
  f (PyList []) = Raise ValueError ->
  (forall v, not_a_list v \/ has_non_numeric v -> f v = Raise TypeError) ->
  raises_iff_overflow f.
Proof.
  intros Hnum Hempty Htype v.
  assert (Hnot_empty : numeric_nonempty (PyList []) -> False).
  { intros (l & Hne & E). destruct l; [contradiction | discriminate]. }
  destruct (classify_argument v) as [H | [H | H]].
  - pose proof (Hnum v H) as Hv.
    assert (Hnv : f v <> Raise ValueError)
      by (destruct Hv as [[q Hq] | Hq]; rewrite Hq; discriminate).
    assert (Hnt : f v <> Raise TypeError)
      by (destruct Hv as [[q Hq] | Hq]; rewrite Hq; discriminate).
    split; [split; [intros _; exact Hv | intros _; exact H]|].
    split.
    { intros r Hr. destruct Hv as [[q Hq] | Hq]; rewrite Hq in Hr;
        [injection Hr as <-; eauto | discriminate]. }
    split; [split; [intros -> | intros E; now destruct Hnv]|].
    { now destruct Hnot_empty. }
    split; [split; [intros Hc | intros E; now destruct Hnt]|].
    { destruct Hnt. now apply Htype. }
    intros e He. destruct Hv as [[q Hq] | Hq]; rewrite Hq in He;
      [discriminate | injection He as <-; auto].
  - subst v.
    split; [split; [intros Hn; now destruct Hnot_empty
                   | intros [[q Hq] | Hq]; congruence]|].
    split; [intros r Hr; congruence|].
    split; [split; [intros _; exact Hempty | reflexivity]|].
    split; [split; [intros Hc | congruence]|].
    { rewrite (Htype _ Hc) in Hempty. discriminate. }
    intros e He. rewrite Hempty in He. injection He as <-. auto.
  - pose proof (Htype v H) as Hv.
    split; [split; [intros Hn | intros [[q Hq] | Hq]; congruence]|].
    { destruct (Hnum v Hn) as [[q Hq] | Hq]; congruence. }
    split; [intros r Hr; congruence|].
    split; [split; [intros -> | ]; congruence|].
    split; [split; [intros _; exact Hv | intros _; exact H]|].
    intros e He. rewrite Hv in He. injection He as <-. auto.
Qed.

(** A sum of floats raises nothing. *)
Lemma sum_loop_floats (l : list num) (total : num) :
  Forall is_float l -> total = PyInt 0 \/ is_float total ->
  exists t, sum_loop total l = Ok t /\ (t = PyInt 0 \/ is_float t).
Proof.
  revert total; induction l as [|x l IH]; intros total Hl Ht;
    cbn [sum_loop]; [eauto|].
  inversion Hl as [|? ? [f ->] Hl']; subst.
  assert (Hadd : exists g, py_add total (PyFloat f) = Ok (PyFloat g)).
  { destruct Ht as [-> | [g ->]]; cbn [py_add py_float bind].
    - rewrite float_of_int_0. cbn [bind]. eauto.
    - eauto. }
  destruct Hadd as [g ->]. cbn [bind].
  apply IH; [exact Hl' | right; now exists g].
Qed.

Lemma med_of_floats (l : list num) :
  l <> [] -> Forall is_float l ->
  exists f, med (num_list l) = Ok (VNum (PyFloat f)).
Proof.
  intros Hne Hl.
  assert (Hin : forall i x, nth_error (sorted l) i = Some x -> is_float x).
  { intros i x Hx. apply nth_error_In in Hx.
    eapply List.Forall_forall; [exact Hl|].
    eapply Permutation_in; [apply sorted_perm | exact Hx]. }
  destruct (Nat.odd (length l)) eqn:E.
  - destruct (med_odd_length l E) as (x & Hx & ->).
    destruct (Hin _ _ Hx) as [f ->]. cbn [py_float bind]. eauto.
  - destruct (med_even_length l Hne) as (a & b & Ha & Hb & ->).
    { now rewrite <- Nat.negb_odd, E. }
    destruct (Hin _ _ Ha) as [fa ->]. destruct (Hin _ _ Hb) as [fb ->].
    cbn [py_add py_float bind]. unfold float_div. cbn [py_float bind].
    rewrite float_lit_2. cbn [is_zero]. eauto.
Qed.

Lemma avg_of_floats (l : list num) :
  l <> [] -> Forall is_float l -> len l < 2 ^ 63 ->
  exists f, avg (num_list l) = Ok (VNum (PyFloat f)).
Proof.
  intros Hne Hl Hlen. rewrite (avg_nums l Hne). unfold py_sum.
  destruct (sum_loop_floats l (PyInt 0) Hl) as (t & -> & Ht); [now left|].
  cbn [bind].
  assert (Hf : exists f, py_float t = Ok f).
  { destruct Ht as [-> | [f ->]]; cbn [py_float]; [|eauto].
    rewrite float_of_int_0. eauto. }
  destruct Hf as [f ->]. cbn [bind]. unfold float_div. cbn [py_float bind].
  pose proof (len_positive l Hne) as Hpos.
  destruct (float_of_int_in_range (len l)) as [b Hb].
  { rewrite Z.abs_eq by lia.
    apply Z.lt_trans with (2 ^ 63); [exact Hlen | reflexivity]. }
  rewrite Hb. cbn [bind].
  rewrite (float_of_int_nonzero (len l) b) by (auto; lia). eauto.
Qed.

(** C10, as the code has it: on a non-empty list of numbers [med] and
    [avg] return a float or raise [OverflowError], and they return
    nothing otherwise: both raise [ValueError] on the empty list, and
    [TypeError] when the argument is not a list or holds an element
    that is not a number; they raise no other exception.  On a
    non-empty list of floats (of a length below [2 ** 63], as that of
    every list is) both return a float: [OverflowError] comes from the
    conversion of an int. *)
Theorem med_avg_raises_iff :
  raises_iff_overflow med /\ raises_iff_overflow avg /\
  (forall l : list num,
     l <> [] -> Forall is_float l -> len l < 2 ^ 63 ->
     (exists f, med (num_list l) = Ok (VNum (PyFloat f))) /\
     (exists f, avg (num_list l) = Ok (VNum (PyFloat f)))).
Proof.
  split; [|split].
  - apply raises_iff_overflow_intro; try reflexivity.
    + intros v (l & Hne & ->). now apply med_outcome.
    + apply type_error_cases; [reflexivity|].
      intros y l. unfold med at 1.
      destruct (validate_numeric (y :: l)) as [xs|e] eqn:E; [|reflexivity].
      cbn [bind]. pose proof (validate_numeric_ok _ _ E) as Hxs.
      destruct xs as [|x xs]; [discriminate|].
      rewrite (med_nums (x :: xs)) by discriminate. reflexivity.
  - apply raises_iff_overflow_intro; try reflexivity.
    + intros v (l & Hne & ->). now apply avg_outcome.
    + apply type_error_cases; [reflexivity|].
      intros y l. unfold avg at 1.
      destruct (validate_numeric (y :: l)) as [xs|e] eqn:E; [|reflexivity].
      cbn [bind]. pose proof (validate_numeric_ok _ _ E) as Hxs.
      destruct xs as [|x xs]; [discriminate|].
      rewrite (avg_nums (x :: xs)) by discriminate. reflexivity.
  - intros l Hne Hl Hlen.
    split; [now apply med_of_floats | now apply avg_of_floats].
Qed.

Lemma med_avg_raises_iff_witness :
  exists f,
    avg (num_list [PyFloat (float_lit 5 (-1)); PyFloat (float_lit 15 (-1))]) =
    Ok (VNum (PyFloat f)).
Proof.
  destruct med_avg_raises_iff as (_ & _ & H).
  destruct (H [PyFloat (float_lit 5 (-1)); PyFloat (float_lit 15 (-1))])
    as [_ Havg].
  - discriminate.
  - repeat constructor; eexists; reflexivity.
  - reflexivity.
  - exact Havg.
Defined.

(** C10, as the claim states it, fails on a list that holds an int
    beyond the largest float: on [[10 ** 400]] both functions raise
    [OverflowError], on a non-empty list of numbers. *)
Lemma med_avg_overflow_error : ~ raises_iff med /\ ~ raises_iff avg.
Proof.
  assert (Hnum : numeric_nonempty (num_list [PyInt (10 ^ 400)])).
  { exists [PyInt (10 ^ 400)]. split; [discriminate | reflexivity]. }
  split; intros H;
    destruct (H (num_list [PyInt (10 ^ 400)])) as [[Hret _] _];
    destruct (Hret Hnum) as [q Hq]; vm_compute in Hq; discriminate.
Qed.

(* ------------------------------------------------------------------ *)
(** ** strVarVals: the order of the rendered pairs                     *)
(* ------------------------------------------------------------------ *)

Lemma string_ltb_false (a b : string) :
  String.ltb a b = false <-> String.le b a.
Proof.
  unfold String.le, String.ltb, String.leb.
  rewrite (String.compare_antisym a b).
  destruct (String.compare b a); simpl; split; intros H;
    try reflexivity; try discriminate; try exact I; try (now destruct H).
Qed.

(** [x] is not after [y] as a tuple: by name, then by value. *)
Lemma item_not_after (x y : string * string) :
  not_after item_ltb x y <->
  (fst x = fst y /\ String.le (snd x) (snd y)) \/
  (fst x <> fst y /\ String.le (fst x) (fst y)).
Proof.
  unfold not_after, item_ltb.
  destruct (String.eqb_spec (fst y) (fst x)) as [E|E];
    rewrite string_ltb_false; split.
  - intros H. left. now split.
  - intros [[_ H] | [H _]]; [exact H | now destruct H].
  - intros H. right. split; [congruence | exact H].
  - intros [[H _] | [_ H]]; [now destruct E | exact H].
Qed.

Lemma item_not_after_total (x y : string * string) :
  not_after item_ltb x y \/ not_after item_ltb y x.
Proof.
  rewrite !item_not_after.
  destruct (String.eqb_spec (fst x) (fst y)) as [E|E].
  - destruct (total String.le (snd x) (snd y)); [left | right]; left; auto.
  - destruct (total String.le (fst x) (fst y)); [left | right]; right; auto.
Qed.

Lemma item_not_after_trans (x y z : string * string) :
  not_after item_ltb x y -> not_after item_ltb y z -> not_after item_ltb x z.
Proof.
  rewrite !item_not_after.
  intros [[E1 H1] | [E1 H1]] [[E2 H2] | [E2 H2]].
  - left. split; [congruence | now transitivity (snd y)].
  - right. split; [congruence | now rewrite E1].
  - right. split; [congruence | now rewrite <- E2].
  - right. split; [|now transitivity (fst y)].
    intros E. apply E1. apply (anti_symm String.le); [exact H1|].
    now rewrite E.
Qed.

Lemma sorted_items_not_after (d : dict) :
  StronglySorted (not_after item_ltb) (sorted_by item_ltb d).
Proof.
  apply (sorted_by_sorted item_ltb (fun _ => True)).
  - intros x y _ _. apply item_not_after_total.
  - intros x y z _ _ _. apply item_not_after_trans.
  - apply List.Forall_forall. intros x _. exact I.
Qed.

Lemma sorted_items (d : dict) :
  Permutation (sorted_by item_ltb d) d /\
  StronglySorted name_le (sorted_by item_ltb d).
Proof.
  split; [apply sorted_by_perm|].
  pose proof (sorted_items_not_after d) as H.
  induction H as [|x s Hs IH Hx]; constructor; [exact IH|].
  eapply Forall_impl; [exact Hx|].
  intros y Hy. apply item_not_after in Hy as [[E _] | [_ H]]; unfold name_le.
  - now rewrite E.
  - exact H.
Qed.

(** C7, as the code has it: [strVarVals] joins the ['name = value']
    pairs of the valuation with the separator in ascending order of the
    variable names, whatever the order of the valuation itself. *)
Theorem strVarVals_sorted_by_name (var_dict : dict) (sep : string) :
  exists items : list (string * string),
    Permutation items var_dict /\
    StronglySorted name_le items /\
    strVarVals var_dict sep = String.concat sep (map format_item items).
Proof.
  destruct var_dict as [|item d].
  - exists []. repeat split; constructor.
  - exists (sorted_by item_ltb (item :: d)).
    destruct (sorted_items (item :: d)) as [Hp Hs].
    repeat split; assumption.
Qed.

(** C7, as the claim states it, fails on a valuation whose names are
    not in ascending order: [{"b": "1", "a": "2"}] is rendered as
    ["a = 2, b = 1"]. *)
Lemma strVarVals_not_insertion_order :
  ~ (forall (var_dict : dict) (sep : string),
       strVarVals var_dict sep = String.concat sep (map format_item var_dict)).
Proof.
  intros H. specialize (H [("b", "1"); ("a", "2")] ", ").
  vm_compute in H. discriminate.
Qed.

(* ------------------------------------------------------------------ *)
(** ** crossproduct against crossproduct_itertools                     *)
(* ------------------------------------------------------------------ *)

Lemma flat_map_cons_split {A B : Type} (g : A -> B) (h : A -> list B)
    (l : list A) :
  Permutation (flat_map (fun a => g a :: h a) l) (map g l ++ flat_map h l).
Proof.
  induction l as [|a l IH]; cbn [flat_map map app]; [reflexivity|].
  constructor. rewrite IH.
  rewrite !app_assoc. apply Permutation_app_tail, Permutation_app_comm.
Qed.

Lemma flat_map_swap {A B C : Type} (f : A -> B -> C) (la : list A)
    (lb : list B) :
  Permutation (flat_map (fun b => map (fun a => f a b) la) lb)
              (flat_map (fun a => map (fun b => f a b) lb) la).
Proof.
  induction lb as [|b lb IH]; cbn [flat_map map].
  - induction la as [|a la IHa]; [reflexivity | exact IHa].
  - rewrite IH. symmetry. apply (flat_map_cons_split (fun a => f a b)).
Qed.

(** X3: on every input on which [crossproduct] returns,
    [crossproduct_itertools] returns the same combinations, each as
    often; only their order can differ. *)
Lemma crossproduct_same_combinations {T : Type} (list_of_lists : list (list T))
    (r : list (list T)) :
  crossproduct list_of_lists = Ok r ->
  Permutation r (crossproduct_itertools list_of_lists).
Proof.
  assert (Hfold : forall lol acc acc' : list (list T),
             Permutation acc acc' ->
             Permutation (fold_left crossproduct_step lol acc)
                         (fold_left product_step lol acc')).
  { induction lol as [|sub lol IH]; intros acc acc' Hacc; [exact Hacc|].
    cbn [fold_left]. apply IH. unfold crossproduct_step, product_step.
    rewrite (flat_map_swap (fun existing item => existing ++ [item])).
    now apply Permutation_flat_map. }
  unfold crossproduct, crossproduct_itertools, product.
  destruct list_of_lists as [|sub lol]; [intros [= <-]; reflexivity|].
  destruct (existsb is_nil (sub :: lol)); [discriminate|].
  intros [= <-]. now apply (Hfold (sub :: lol)).
Qed.

(** C8 at the example of the docstring of [crossproduct],
    [[[1, 2], ['a', 'b']]]: [crossproduct] lets the first list vary
    fastest, [crossproduct_itertools] the last one, and the docstring
    shows the result of the latter. *)
Theorem crossproduct_order_differs :
  let list_of_lists :=
    [[VNum (PyInt 1); VNum (PyInt 2)]; [VStr "a"; VStr "b"]] in
  crossproduct list_of_lists =
    Ok [[VNum (PyInt 1); VStr "a"]; [VNum (PyInt 2); VStr "a"];
        [VNum (PyInt 1); VStr "b"]; [VNum (PyInt 2); VStr "b"]] /\
  crossproduct_itertools list_of_lists =
    [[VNum (PyInt 1); VStr "a"]; [VNum (PyInt 1); VStr "b"];
     [VNum (PyInt 2); VStr "a"]; [VNum (PyInt 2); VStr "b"]] /\
  crossproduct list_of_lists <> Ok (crossproduct_itertools list_of_lists).
Proof.
  cbv zeta. split; [reflexivity|]. split; [reflexivity|].
  vm_compute. discriminate.
Qed.

(* ------------------------------------------------------------------ *)
(** ** output_production                                               *)
(* ------------------------------------------------------------------ *)

(** C9: [output_production] returns [True] or [False] and never raises.
    When it returns [False] the three writers are the ones it found;
    when it returns [True], [short] is [sys.stdout], [full] is a writer
    on the opened file, and a write to [all] is a write to [short]
    followed by the same write to [full].  It returns [True] exactly
    when the file can be opened. *)
Theorem output_production_atomic (log_file : string) (o : outputs) (w : world) :
  let '(r, o', w') := output_production log_file o w in
  (r = Ok true \/ r = Ok false) /\
  (r = Ok true <-> can_open w log_file = true) /\
  (r = Ok false -> o' = o) /\
  (r = Ok true ->
   short o' = Some Stdout /\
   full o' = Some (FileWriter log_file) /\
   exists all_writer, all o' = Some all_writer /\
     forall (data : string) (w0 : world),
       write all_writer data w0 =
       write (FileWriter log_file) data (write Stdout data w0)).
Proof.
  unfold output_production, FileWriter_init.
  destruct (can_open w log_file) eqn:E.
  - split; [now left|]. split; [easy|]. split; [discriminate|].
    intros _. cbn. split; [reflexivity|]. split; [reflexivity|].
    eexists. split; reflexivity.
  - split; [now right|]. split; [split; discriminate|].
    split; [reflexivity | discriminate].
Qed.

Lemma output_production_atomic_witness :
  let o := {| short := Some WriteNull; full := Some Stdout; all := Some Stdout |} in
  let w := {| can_open := fun path => String.eqb path "run.log";
              screen := EmptyString; file_text := ∅; logged := [] |} in
  snd (fst (output_production "/no/such/dir/run.log" o w)) = o /\
  full (snd (fst (output_production "run.log" o w))) =
    Some (FileWriter "run.log").
Proof.
  intros o w. split.
  - pose proof (output_production_atomic "/no/such/dir/run.log" o w) as H.
    destruct (output_production "/no/such/dir/run.log" o w) as [[r o'] w'] eqn:E.
    destruct H as (_ & _ & H & _). apply H.
    vm_compute in E. now injection E as <- _ _.
  - pose proof (output_production_atomic "run.log" o w) as H.
    destruct (output_production "run.log" o w) as [[r o'] w'] eqn:E.
    destruct H as (_ & _ & _ & H). apply H.
    vm_compute in E. now injection E as <- _ _.
Defined.

(* ------------------------------------------------------------------ *)
(** ** _setup_scoring: the option optimal                              *)
(* ------------------------------------------------------------------ *)

Lemma config_get_has_option (config : RawConfigParser)
    (section name value : string) :
  config_get config section name = Ok value ->
  has_option config section name = true.
Proof.
  unfold config_get, has_option.
  destruct (config !! section) as [options|]; [|discriminate].
  destruct (options !! optionxform name); [reflexivity | discriminate].
Qed.

Lemma has_option_config_get (config : RawConfigParser) (section name : string) :
  has_option config section name = true ->
  exists value, config_get config section name = Ok value.
Proof.
  unfold config_get, has_option.
  destruct (config !! section) as [options|]; [|discriminate].
  destruct (options !! optionxform name); [eauto | discriminate].
Qed.

Lemma has_option_false_config_get (config : RawConfigParser)
    (section name : string) :
  has_option config section name = false ->
  exists e, config_get config section name = Raise (OtherError e).
Proof.
  unfold config_get, has_option.
  destruct (config !! section) as [options|]; [|eauto].
  destruct (options !! optionxform name); [discriminate | eauto].
Qed.

(** C6, as the code has it: the setting of [optimal] is lower-cased
    first.  It is accepted exactly when its lower-case form is one of
    [max_time], [min_time], [max], [min], and any other setting raises
    [ConfigurationError]; the direction is the first three characters of
    the lower-case form, [min] or [max], and [custom_fom] is true for the
    three-character forms [max] and [min] and false for the [_time]
    forms. *)
Theorem setup_scoring_optimal (config : RawConfigParser) (value : string) :
  config_get config "scoring" "optimal" = Ok value ->
  let setting := lower value in
  let direction := substring 0 3 setting in
  let custom := Nat.eqb (String.length setting) 3 in
  (In setting optimal_settings ->
   _setup_scoring config =
     (let* roa := scoring_repeat config in
      Ok {| sc_optimal := direction; sc_custom_fom := custom;
            sc_repeat := fst (fst roa); sc_overall := snd (fst roa);
            sc_aggregator := snd roa |}) /\
   (direction = "min" \/ direction = "max") /\
   (custom = true <-> setting = "max" \/ setting = "min") /\
   (custom = false <-> setting = "max_time" \/ setting = "min_time")) /\
  (~ In setting optimal_settings ->
   _setup_scoring config =
     Raise (ConfigurationError (InvalidOptimal setting))).
Proof.
  intros Hget setting direction custom.
  pose proof (config_get_has_option _ _ _ _ Hget) as Hhas.
  assert (Hin : existsb (String.eqb setting) optimal_settings = true <->
                In setting optimal_settings).
  { rewrite existsb_exists. split.
    - intros (x & Hx & E). apply String.eqb_eq in E. now subst.
    - intros H. exists setting. split; [exact H | apply String.eqb_refl]. }
  unfold _setup_scoring, scoring_optimal. rewrite Hhas, Hget. cbn [bind].
  fold setting. split.
  - intros H. rewrite (proj2 Hin H). cbn [bind]. split.
    + destruct (scoring_repeat config) as [[[r o] a]|e]; reflexivity.
    + subst direction custom.
      destruct H as [<- | [<- | [<- | [<- | []]]]]; cbn;
        (split; [auto|]); split; split; intros H;
        try reflexivity; try discriminate; auto;
        destruct H as [H|H]; discriminate.
  - intros H. destruct (existsb (String.eqb setting) optimal_settings) eqn:E;
      [|reflexivity].
    now destruct H; apply Hin.
Qed.

Lemma setup_scoring_optimal_witness :
  let config : RawConfigParser :=
    {[ "scoring" := {[ "optimal" := "Max_Time"; "repeat" := "3, med" ]} ]} in
  _setup_scoring config =
    Ok {| sc_optimal := "max"; sc_custom_fom := false; sc_repeat := 3;
          sc_overall := "med"; sc_aggregator := med |}.
Proof.
  cbv zeta.
  refine (eq_trans
    (proj1 (proj1 (setup_scoring_optimal
       {[ "scoring" := {[ "optimal" := "Max_Time"; "repeat" := "3, med" ]} ]}
       "Max_Time" eq_refl) _)) _).
  - vm_compute. auto.
  - reflexivity.
Defined.

(** C6, as the claim states it, fails on a setting that is one of the
    four only up to case: [optimal = MIN] raises nothing, and gives the
    direction [min], which is not the first three characters of [MIN]. *)
Lemma optimal_is_case_insensitive :
  ~ (forall (config : RawConfigParser) (value : string),
       config_get config "scoring" "optimal" = Ok value ->
       (~ In value optimal_settings ->
        exists why, _setup_scoring config = Raise (ConfigurationError why)) /\
       (forall sc, _setup_scoring config = Ok sc ->
                   sc_optimal sc = substring 0 3 value)).
Proof.
  intros H.
  destruct (H upper_case_config "MIN" eq_refl) as [Hraise Hdir].
  destruct Hraise as [why Hwhy].
  - intros Hin. repeat (destruct Hin as [Hin|Hin]; [discriminate|]).
    exact Hin.
  - vm_compute in Hwhy. discriminate.
Qed.

(* ------------------------------------------------------------------ *)
(** ** get_settings                                                    *)
(* ------------------------------------------------------------------ *)

Lemma validate_required_sections_cases (config : RawConfigParser) :
  (_validate_required_sections config = Ok tt /\
   forall section, In section required_sections ->
                   has_section config section = true) \/
  (exists missing,
     _validate_required_sections config =
       Raise (ConfigurationError (MissingSections missing)) /\
     section_missing config).
Proof.
  unfold _validate_required_sections.
  destruct (List.filter _ required_sections) as [|s missing] eqn:E.
  - left. split; [reflexivity|]. intros section Hin.
    destruct (has_section config section) eqn:Hs; [reflexivity|].
    assert (H : In section []); [|contradiction].
    rewrite <- E. apply filter_In. now rewrite Hs.
  - right. exists (s :: missing). split; [reflexivity|].
    assert (H : In s (s :: missing)) by now left.
    rewrite <- E in H. apply filter_In in H as [Hin Hs].
    exists s. split; [exact Hin|]. now destruct (has_section config s).
Qed.

Lemma validate_variables_section_cases (config : RawConfigParser) :
  (exists var_tree, _validate_variables_section config = Ok var_tree /\
                    config_get config "variables" "variables" = Ok var_tree) \/
  (has_option config "variables" "variables" = false /\
   _validate_variables_section config =
     Raise (ConfigurationError MissingVariablesOption)).
Proof.
  unfold _validate_variables_section.
  destruct (has_option config "variables" "variables") eqn:E; [|now right].
  left. destruct (has_option_config_get _ _ _ E) as [v Hv]. eauto.
Qed.

Lemma extract_values_fold (config : RawConfigParser) (variables : list string)
    (m0 : gmap string (list string)) :
  (forall var, In var variables -> has_option config "values" var = true) ->
  exists m,
    fold_left
      (fun acc var =>
         let* poss_values := acc in
         let* raw_values := config_get config "values" var in
         Ok (<[var := map strip (split_comma raw_values)]> poss_values))
      variables (Ok m0) = Ok m /\
    (forall var, In var variables ->
       exists raw, config_get config "values" var = Ok raw /\
                   m !! var = Some (map strip (split_comma raw))) /\
    (forall var, ~ In var variables -> m !! var = m0 !! var).
Proof.
  revert m0; induction variables as [|v vs IH]; intros m0 Hall.
  - exists m0. split; [reflexivity|]. split; [intros ? []|reflexivity].
  - destruct (has_option_config_get config "values" v) as [raw Hraw].
    { apply Hall. now left. }
    destruct (IH (<[v := map strip (split_comma raw)]> m0)) as (m & Hm & Hin & Hout).
    { intros var Hvar. apply Hall. now right. }
    exists m. cbn [fold_left bind]. rewrite Hraw. cbn [bind].
    split; [exact Hm|]. split.
    + intros var Hvar. destruct (in_dec string_dec var vs) as [Hvs|Hvs].
      * now apply Hin.
      * destruct Hvar as [<-|Hvar]; [|contradiction].
        exists raw. split; [exact Hraw|].
        rewrite (Hout v Hvs). apply lookup_insert_eq.
    + intros var Hvar. rewrite Hout by (intros H; apply Hvar; now right).
      apply lookup_insert_ne. intros ->. apply Hvar. now left.
Qed.

Lemma extract_values_cases (config : RawConfigParser) (variables : list string) :
  (exists poss_values,
     _validate_and_extract_values config variables = Ok poss_values /\
     (forall var, In var variables -> has_option config "values" var = true) /\
     (forall var, In var variables ->
        exists raw, config_get config "values" var = Ok raw /\
                    poss_values !! var = Some (map strip (split_comma raw)))) \/
  (exists missing,
     _validate_and_extract_values config variables =
       Raise (ConfigurationError (MissingValues missing)) /\
     exists var, In var variables /\ has_option config "values" var = false).
Proof.
  unfold _validate_and_extract_values.
  destruct (List.filter _ variables) as [|v missing] eqn:E.
  - assert (Hall : forall var, In var variables ->
                               has_option config "values" var = true).
    { intros var Hin. destruct (has_option config "values" var) eqn:Hv;
        [reflexivity|].
      assert (H : In var []); [|contradiction].
      rewrite <- E. apply filter_In. now rewrite Hv. }
    left. destruct (extract_values_fold config variables ∅ Hall)
      as (m & Hm & Hin & _).
    exists m. auto.
  - right. exists (v :: missing). split; [reflexivity|].
    assert (H : In v (v :: missing)) by now left.
    rewrite <- E in H. apply filter_In in H as [Hin Hv].
    exists v. split; [exact Hin|]. now destruct (has_option config "values" v).
Qed.

Lemma optional_command_ok (config : RawConfigParser) (name : string) :
  optional_command config name =
    Ok (option_value config "testing" name,
        option_map make_command_string (option_value config "testing" name)).
Proof.
  unfold optional_command, option_value.
  destruct (has_option config "testing" name) eqn:E.
  - destruct (has_option_config_get _ _ _ E) as [v ->]. reflexivity.
  - destruct (has_option_false_config_get _ _ _ E) as [e ->]. reflexivity.
Qed.

Lemma optional_get_ok (config : RawConfigParser) (section name : string) :
  optional_get config section name = Ok (option_value config section name).
Proof.
  unfold optional_get, option_value.
  destruct (has_option config section name) eqn:E.
  - destruct (has_option_config_get _ _ _ E) as [v ->]. reflexivity.
  - destruct (has_option_false_config_get _ _ _ E) as [e ->]. reflexivity.
Qed.

Lemma setup_commands_cases (config : RawConfigParser) :
  (exists test_template,
     config_get config "testing" "test" = Ok test_template /\
     _setup_commands config =
       Ok (option_value config "testing" "compile",
           option_map make_command_string
                      (option_value config "testing" "compile"),
           (Some test_template, Some (make_command_string test_template)),
           (option_value config "testing" "clean",
            option_map make_command_string
                       (option_value config "testing" "clean")))) \/
  (test_missing config /\
   _setup_commands config = Raise (ConfigurationError MissingTest)).
Proof.
  unfold _setup_commands, test_missing. rewrite !optional_command_ok.
  cbn [bind].
  destruct (has_option config "testing" "test") eqn:E.
  - left. destruct (has_option_config_get _ _ _ E) as [t Ht].
    exists t. rewrite Ht. split; reflexivity.
  - right. split; reflexivity.
Qed.

Lemma scoring_optimal_ok (config : RawConfigParser) :
  optimal_valid config -> exists o, scoring_optimal config = Ok o.
Proof.
  intros Hvalid. unfold scoring_optimal.
  destruct (has_option config "scoring" "optimal") eqn:E; [|eauto].
  destruct (has_option_config_get _ _ _ E) as [v Hv]. rewrite Hv. cbn [bind].
  specialize (Hvalid v Hv).
  destruct (existsb (String.eqb (lower v)) optimal_settings) eqn:Hex; [eauto|].
  assert (H : existsb (String.eqb (lower v)) optimal_settings = true);
    [|congruence].
  apply existsb_exists. exists (lower v).
  split; [exact Hvalid | apply String.eqb_refl].
Qed.

Lemma scoring_repeat_ok (config : RawConfigParser) :
  repeat_valid config -> exists r, scoring_repeat config = Ok r.
Proof.
  intros Hvalid. unfold scoring_repeat.
  destruct (has_option config "scoring" "repeat") eqn:E; [|eauto].
  destruct (has_option_config_get _ _ _ E) as [v Hv]. rewrite Hv. cbn [bind].
  destruct (Hvalid v Hv) as [(n & Hn & Hge) Hagg].
  destruct (partition_comma v) as [[head sep] tail]. cbn [fst snd] in *.
  rewrite Hn. destruct (Z.ltb_spec n 1); [lia|]. cbn [bind].
  destruct Hagg as [-> | Hagg]; [eauto|].
  destruct (String.eqb sep EmptyString); [eauto|].
  destruct Hagg as [<- | [<- | [<- | [<- | []]]]]; cbn; eauto.
Qed.

(** How far [get_settings] gets on a file that is read: one of its
    checks fails and it raises a [ConfigurationError], or
    [get_variables] raises, or all the checks before [_setup_scoring]
    pass. *)
Lemma get_settings_progress (get_variables : string -> result (list string))
    (files : string -> config_file_state) (config_file : string)
    (config : RawConfigParser) :
  files config_file = Parsed config ->
  (check_fails get_variables config /\
   exists why,
     get_settings get_variables files config_file =
       Raise (ConfigurationError why)) \/
  (exists var_tree e,
     ~ section_missing config /\
     config_get config "variables" "variables" = Ok var_tree /\
     get_variables var_tree = Raise e /\
     get_settings get_variables files config_file = Raise e) \/
  (exists var_tree variables poss_values test_template,
     ~ section_missing config /\
     config_get config "variables" "variables" = Ok var_tree /\
     get_variables var_tree = Ok variables /\
     (forall var, In var variables -> has_option config "values" var = true) /\
     (forall var, In var variables ->
        exists raw, config_get config "values" var = Ok raw /\
                    poss_values !! var = Some (map strip (split_comma raw))) /\
     config_get config "testing" "test" = Ok test_template /\
     get_settings get_variables files config_file =
       (let* sc := _setup_scoring config in
        Ok {| vartree := var_tree;
              possValues := poss_values;
              compile := option_value config "testing" "compile";
              compile_mkStr :=
                option_map make_command_string
                           (option_value config "testing" "compile");
              test := Some test_template;
              test_mkStr := Some (make_command_string test_template);
              clean := option_value config "testing" "clean";
              clean_mkStr :=
                option_map make_command_string
                           (option_value config "testing" "clean");
              optimal := sc_optimal sc;
              custom_fom := sc_custom_fom sc;
              repeat := sc_repeat sc;
              overall := sc_overall sc;
              aggregator := sc_aggregator sc;
              log := option_value config "output" "log";
              script := option_value config "output" "script";
              importance := option_value config "output" "importance" |})).
Proof.
  intros Hfile. unfold get_settings, check_fails. rewrite Hfile.
  destruct (validate_required_sections_cases config)
    as [[-> Hsec] | (missing & -> & Hmiss)]; [|left; eauto].
  cbn [bind].
  assert (Hno : ~ section_missing config).
  { intros (s & Hin & Hs). rewrite (Hsec s Hin) in Hs. discriminate. }
  destruct (validate_variables_section_cases config)
    as [(vt & -> & Hvt) | [Hnone ->]]; [|left; eauto].
  cbn [bind].
  destruct (get_variables vt) as [vars|e] eqn:Hgv;
    [|right; left; exists vt, e; auto].
  cbn [bind].
  destruct (extract_values_cases config vars)
    as [(pv & -> & Hall & Hpv) | (missing & -> & (var & Hin & Hvar))].
  2:{ left. split; [|eauto]. right; right; left. now exists vt, vars, var. }
  cbn [bind].
  destruct (setup_commands_cases config)
    as [(t & Ht & ->) | (Hmiss & ->)]; [|left; eauto 6].
  cbn [bind].
  right; right. exists vt, vars, pv, t.
  repeat (split; [assumption|]).
  destruct (_setup_scoring config) as [sc|e]; [|reflexivity].
  cbn [bind]. unfold _get_output_settings. rewrite !optional_get_ok.
  reflexivity.
Qed.

Lemma well_formed_passes_checks
    (get_variables : string -> result (list string))
    (config : RawConfigParser) (var_tree : string) (variables : list string)
    (test_template : string) :
  well_formed get_variables config var_tree variables test_template ->
  ~ check_fails get_variables config.
Proof.
  intros (Hsec & Hvt & Hgv & Hall & Ht & _)
         [(s & Hin & Hs) | [Hnone | [(vt & vars & var & Hvt' & Hgv' & Hin & Hvar)
                                    | Hmiss]]].
  - rewrite (Hsec s Hin) in Hs. discriminate.
  - rewrite (config_get_has_option _ _ _ _ Hvt) in Hnone. discriminate.
  - assert (vt = var_tree) by congruence. subst vt.
    assert (vars = variables) by congruence. subst vars.
    rewrite (Hall var Hin) in Hvar. discriminate.
  - unfold test_missing in Hmiss.
    rewrite (config_get_has_option _ _ _ _ Ht) in Hmiss. discriminate.
Qed.

(** C5: on a configuration file that is read, [get_settings] raises a
    [ConfigurationError], and so returns no settings, when a required
    section is missing, when a variable that the variable tree declares
    has no entry in [values], and when [testing] has no option [test]
    (for the last, [get_variables] itself is taken to raise nothing but
    a [ConfigurationError]).  On a well-formed configuration it returns
    the settings record, with every field taken from the file. *)
Theorem get_settings_checks (get_variables : string -> result (list string))
    (files : string -> config_file_state) (config_file : string)
    (config : RawConfigParser) :
  files config_file = Parsed config ->
  (section_missing config ->
   exists why, get_settings get_variables files config_file =
                 Raise (ConfigurationError why)) /\
  (declared_without_values get_variables config ->
   exists why, get_settings get_variables files config_file =
                 Raise (ConfigurationError why)) /\
  (test_missing config -> raises_configuration_error_only get_variables ->
   exists why, get_settings get_variables files config_file =
                 Raise (ConfigurationError why)) /\
  (forall var_tree variables test_template,
     well_formed get_variables config var_tree variables test_template ->
     exists st sc,
       get_settings get_variables files config_file = Ok st /\
       vartree st = var_tree /\
       (forall var, In var variables ->
          exists raw, config_get config "values" var = Ok raw /\
                      possValues st !! var = Some (map strip (split_comma raw))) /\
       compile st = option_value config "testing" "compile" /\
       compile_mkStr st = option_map make_command_string (compile st) /\
       test st = Some test_template /\
       test_mkStr st = Some (make_command_string test_template) /\
       clean st = option_value config "testing" "clean" /\
       clean_mkStr st = option_map make_command_string (clean st) /\
       _setup_scoring config = Ok sc /\
       optimal st = sc_optimal sc /\ custom_fom st = sc_custom_fom sc /\
       repeat st = sc_repeat sc /\ overall st = sc_overall sc /\
       aggregator st = sc_aggregator sc /\
       log st = option_value config "output" "log" /\
       script st = option_value config "output" "script" /\
       importance st = option_value config "output" "importance").
Proof.
  intros Hfile.
  destruct (get_settings_progress get_variables files config_file config Hfile)
    as [[Hfails Hraise]
       | [(vt & e & Hno & Hvt & Hgv & Hres)
         | (vt & vars & pv & t & Hno & Hvt & Hgv & Hall & Hpv & Ht & Hres)]].
  - repeat split; try (intros; exact Hraise).
    intros vt vars t Hwf.
    now destruct (well_formed_passes_checks _ _ _ _ _ Hwf).
  - split; [intros H; contradiction|].
    split; [intros (vt' & vars & var & Hvt' & Hgv' & _); congruence|].
    split.
    + intros _ Honly. destruct (Honly vt e Hgv) as [why ->]. eauto.
    + intros vt' vars t (_ & Hvt' & Hgv' & _). congruence.
  - split; [intros H; contradiction|].
    split.
    { intros (vt' & vars' & var & Hvt' & Hgv' & Hin & Hvar).
      assert (vt' = vt) by congruence. subst vt'.
      assert (vars' = vars) by congruence. subst vars'.
      rewrite (Hall var Hin) in Hvar. discriminate. }
    split.
    { intros Hmiss. unfold test_missing in Hmiss.
      rewrite (config_get_has_option _ _ _ _ Ht) in Hmiss. discriminate. }
    intros vt' vars' t' (_ & Hvt' & Hgv' & _ & Ht' & Hopt & Hrep).
    assert (vt' = vt) by congruence. subst vt'.
    assert (vars' = vars) by congruence. subst vars'.
    assert (t' = t) by congruence. subst t'.
    destruct (scoring_optimal_ok config Hopt) as [[o c] Ho].
    destruct (scoring_repeat_ok config Hrep) as [[[r ov] a] Hr].
    assert (Hsc : _setup_scoring config =
                  Ok {| sc_optimal := o; sc_custom_fom := c; sc_repeat := r;
                        sc_overall := ov; sc_aggregator := a |}).
    { unfold _setup_scoring. rewrite Ho, Hr. reflexivity. }
    rewrite Hsc in Hres. cbn [bind] in Hres.
    eexists _, _. split; [exact Hres|]. cbn.
    split; [reflexivity|]. split; [exact Hpv|].
    repeat (split; [reflexivity|]). split; [exact Hsc|].
    repeat (split; [reflexivity|]). reflexivity.
Qed.

Lemma example_config_well_formed :
  well_formed flatten_names example_config "{threads, blocks}"
              ["threads"; "blocks"] "./bench %threads% %blocks% > out_%%ID%%".
Proof.
  split; [|split; [|split; [|split; [|split; [|split]]]]]; try reflexivity.
  - intros s Hin. repeat (destruct Hin as [<-|Hin]; [reflexivity|]).
    contradiction.
  - intros v Hin. repeat (destruct Hin as [<-|Hin]; [reflexivity|]).
    contradiction.
  - intros value Hv. vm_compute in Hv. injection Hv as <-.
    vm_compute. auto.
  - intros value Hv. vm_compute in Hv. injection Hv as <-.
    split; [exists 3; split; [reflexivity | lia]|].
    right. vm_compute. auto.
Qed.

Lemma get_settings_checks_witness :
  (exists st, get_settings flatten_names (fun _ => Parsed example_config)
                           "tune.conf" = Ok st /\
              vartree st = "{threads, blocks}" /\
              test st = Some "./bench %threads% %blocks% > out_%%ID%%") /\
  (exists why, get_settings flatten_names
                            (fun _ => Parsed example_config_no_test)
                            "tune.conf" = Raise (ConfigurationError why)).
Proof.
  split.
  - destruct (proj2 (proj2 (proj2
      (get_settings_checks flatten_names (fun _ => Parsed example_config)
         "tune.conf" example_config eq_refl)))
      _ _ _ example_config_well_formed)
      as (st & sc & Hst & Hvt & _ & _ & _ & Ht & _).
    exists st. auto.
  - apply (proj1 (proj2 (proj2
      (get_settings_checks flatten_names
         (fun _ => Parsed example_config_no_test)
         "tune.conf" example_config_no_test eq_refl)))).
    + reflexivity.
    + intros vt e H. discriminate.
Defined.

(* ------------------------------------------------------------------ *)
(** ** Dicts                                                           *)
(* ------------------------------------------------------------------ *)

Lemma dict_get_In (d : dict) (k v : string) :
  dict_get d k = Some v -> In (k, v) d.
Proof.
  induction d as [|[k' v'] d IH]; simpl; [discriminate|].
  destruct (String.eqb_spec k' k) as [->|Hne].
  - intros [= ->]. now left.
  - intros H. right. now apply IH.
Qed.

Lemma dict_get_NoDup (d : dict) (k v : string) :
  List.NoDup (map fst d) -> In (k, v) d -> dict_get d k = Some v.
Proof.
  induction d as [|[k' v'] d IH]; simpl; [contradiction|].
  intros Hnd Hin. inversion Hnd as [|? ? Hk' Hd]; subst.
  destruct (String.eqb_spec k' k) as [->|Hne].
  - destruct Hin as [[= ->]|Hin]; [reflexivity|].
    destruct Hk'. apply (in_map fst) in Hin. exact Hin.
  - destruct Hin as [[= -> ->]|Hin]; [contradiction|]. now apply IH.
Qed.

Lemma dict_eqb_true (a b : dict) :
  dict_eqb a b = true <->
  length a = length b /\
  forall k v, In (k, v) a -> dict_get b k = Some v.
Proof.
  unfold dict_eqb. rewrite andb_true_iff, Nat.eqb_eq, forallb_forall.
  split; intros [Hlen H]; (split; [exact Hlen|]).
  - intros k v Hin. specialize (H (k, v) Hin). cbn in H.
    destruct (dict_get b k) as [v'|]; [|discriminate].
    apply String.eqb_eq in H. now subst.
  - intros [k v] Hin. rewrite (H k v Hin). apply String.eqb_refl.
Qed.

Lemma dict_eqb_refl (d : dict) : List.NoDup (map fst d) -> dict_eqb d d = true.
Proof.
  intros Hnd. apply dict_eqb_true. split; [reflexivity|].
  intros k v. now apply dict_get_NoDup.
Qed.

Lemma dict_eqb_sym (a b : dict) :
  List.NoDup (map fst a) -> List.NoDup (map fst b) ->
  dict_eqb a b = true -> dict_eqb b a = true.
Proof.
  intros Ha Hb. rewrite !dict_eqb_true. intros [Hlen H].
  split; [now symmetry|].
  assert (Hincl : incl (map fst b) (map fst a)).
  { apply List.NoDup_length_incl; [exact Ha | rewrite !length_map; lia |].
    intros k Hk. apply in_map_iff in Hk as ([k' v] & <- & Hin).
    apply H, dict_get_In in Hin. apply (in_map fst) in Hin. exact Hin. }
  intros k v Hin.
  assert (Hk : In k (map fst a)).
  { apply Hincl. apply (in_map fst) in Hin as Hin'. exact Hin'. }
  apply in_map_iff in Hk as ([k' v0] & E & Hin0). cbn in E. subst k'.
  pose proof (H k v0 Hin0) as Hb0.
  rewrite (dict_get_NoDup b k v Hb Hin) in Hb0. injection Hb0 as <-.
  now apply dict_get_NoDup.
Qed.

Lemma dict_set_keys (d : dict) (k v x : string) :
  In x (map fst (dict_set d k v)) -> x = k \/ In x (map fst d).
Proof.
  induction d as [|[k' v'] d IH]; simpl.
  - intros [<-|[]]. now left.
  - destruct (String.eqb_spec k' k) as [->|Hne]; simpl.
    + intros [<-|H]; auto.
    + intros [<-|H]; [auto|]. destruct (IH H); auto.
Qed.

Lemma dict_set_NoDup (d : dict) (k v : string) :
  List.NoDup (map fst d) -> List.NoDup (map fst (dict_set d k v)).
Proof.
  induction d as [|[k' v'] d IH]; simpl; intros Hnd.
  - repeat constructor. intros [].
  - inversion Hnd as [|? ? Hk' Hd]; subst.
    destruct (String.eqb_spec k' k) as [->|Hne]; simpl.
    + now constructor.
    + constructor; [|now apply IH].
      intros H. apply dict_set_keys in H as [->|H]; contradiction.
Qed.

(* ------------------------------------------------------------------ *)
(** ** The tests of the importance sweep                               *)
(* ------------------------------------------------------------------ *)

Lemma importance_values_add (optimal_valuation : dict) (var : string)
    (values : list string) (tests : list dict) :
  importance_values optimal_valuation var values tests =
  fold_left add_test (map (dict_set optimal_valuation var) values) tests.
Proof.
  unfold importance_values. revert tests.
  induction values as [|val values IH]; intros tests; [reflexivity|].
  cbn [fold_left map]. apply IH.
Qed.

Lemma importance_vars_add (poss_values : gmap string (list string))
    (optimal_valuation : dict) (vars_list : list string) (tests : list dict) :
  (forall var, In var vars_list -> poss_values !! var <> None) ->
  importance_vars poss_values optimal_valuation vars_list tests =
  Ok (fold_left add_test (candidates poss_values optimal_valuation vars_list)
                tests).
Proof.
  unfold importance_vars, candidates. revert tests.
  induction vars_list as [|var vars IH]; intros tests Hall; [reflexivity|].
  cbn [fold_left flat_map bind].
  destruct (poss_values !! var) as [values|] eqn:E.
  - cbn [default]. rewrite fold_left_app, <- importance_values_add.
    apply IH. intros v Hv. apply Hall. now right.
  - destruct (Hall var); [now left | exact E].
Qed.

Lemma add_test_sound (cs ts : list dict) (t : dict) :
  In t (fold_left add_test cs ts) -> In t ts \/ In t cs.
Proof.
  revert ts; induction cs as [|c cs IH]; intros ts; cbn [fold_left]; [auto|].
  intros H. apply IH in H as [H|H]; [|right; now right].
  unfold add_test in H. destruct (negb (dict_in c ts)); [|now left].
  apply in_app_or in H as [H|[<-|[]]]; [now left | right; now left].
Qed.

Lemma add_test_keeps (cs ts : list dict) (t : dict) :
  In t ts -> In t (fold_left add_test cs ts).
Proof.
  revert ts; induction cs as [|c cs IH]; intros ts H; cbn [fold_left]; [exact H|].
  apply IH. unfold add_test. destruct (negb (dict_in c ts)); [|exact H].
  apply in_or_app. now left.
Qed.

Lemma add_test_complete (cs ts : list dict) (c : dict) :
  In c cs -> dict_eqb c c = true ->
  exists t, In t (fold_left add_test cs ts) /\ dict_eqb c t = true.
Proof.
  revert ts; induction cs as [|c' cs IH]; intros ts; [intros []|].
  intros [->|Hin] Hrefl; cbn [fold_left]; [|now apply IH].
  unfold add_test. destruct (dict_in c ts) eqn:E; cbn [negb].
  - unfold dict_in in E. apply existsb_exists in E as (t & Ht & Heq).
    exists t. split; [now apply add_test_keeps | exact Heq].
  - exists c. split; [|exact Hrefl].
    apply add_test_keeps, in_or_app. right. now left.
Qed.

Lemma add_test_first_occurrences (cs ts : list dict) :
  first_occurrences ts -> first_occurrences (fold_left add_test cs ts).
Proof.
  revert ts; induction cs as [|c cs IH]; intros ts H; cbn [fold_left]; [exact H|].
  apply IH. unfold add_test. destruct (dict_in c ts) eqn:E; cbn [negb]; [exact H|].
  intros before t after Heq.
  destruct after as [|a after].
  - apply app_inj_tail in Heq as [<- <-]. exact E.
  - assert (Hlast : a :: after <> []) by discriminate.
    destruct (exists_last Hlast) as (after' & z & Hz). rewrite Hz in Heq.
    change (ts ++ [c] = before ++ (t :: after') ++ [z]) in Heq.
    rewrite app_assoc in Heq. apply app_inj_tail in Heq as [Heq _].
    now apply (H before t after').
Qed.

Lemma in_candidates (poss_values : gmap string (list string))
    (optimal_valuation : dict) (vars_list : list string) (c : dict) :
  In c (candidates poss_values optimal_valuation vars_list) <->
  exists var values val,
    In var vars_list /\ poss_values !! var = Some values /\ In val values /\
    c = dict_set optimal_valuation var val.
Proof.
  unfold candidates. rewrite in_flat_map. split.
  - intros (var & Hvar & Hc). apply in_map_iff in Hc as (val & <- & Hval).
    destruct (poss_values !! var) as [values|] eqn:E; [|contradiction].
    now exists var, values, val.
  - intros (var & values & val & Hvar & E & Hval & ->).
    exists var. split; [exact Hvar|]. rewrite E. now apply in_map.
Qed.

Lemma first_occurrences_distinct (tests : list dict) :
  first_occurrences tests ->
  (forall t, In t tests -> List.NoDup (map fst t)) ->
  forall i j t1 t2,
    i <> j -> nth_error tests i = Some t1 -> nth_error tests j = Some t2 ->
    dict_eqb t1 t2 = false.
Proof.
  intros Hfirst Hkeys.
  assert (Hlater : forall i j t1 t2,
             (i < j)%nat -> nth_error tests i = Some t1 ->
             nth_error tests j = Some t2 -> dict_eqb t2 t1 = false).
  { intros i j t1 t2 Hlt H1 H2.
    destruct (nth_error_split _ _ H2) as (before & after & Heq & Hlen).
    pose proof (Hfirst before t2 after Heq) as Hnot.
    rewrite Heq, nth_error_app1 in H1 by lia.
    apply nth_error_In in H1.
    destruct (dict_eqb t2 t1) eqn:E; [|reflexivity].
    assert (Hin : dict_in t2 before = true); [|congruence].
    apply existsb_exists. now exists t1. }
  intros i j t1 t2 Hne H1 H2.
  destruct (Nat.lt_total i j) as [Hlt | [-> | Hgt]]; [| contradiction |].
  - destruct (dict_eqb t1 t2) eqn:E; [|reflexivity].
    apply dict_eqb_sym in E;
      [| apply Hkeys; eapply nth_error_In; eassumption
       | apply Hkeys; eapply nth_error_In; eassumption].
    now rewrite (Hlater i j t1 t2 Hlt H1 H2) in E.
  - exact (Hlater j i t2 t1 Hgt H2 H1).
Qed.

(** C4, as the code has it: the sweep goes over the variables of the
    variable tree, whether the optimum has them or not.  The tests are
    exactly the valuations obtained from the optimum by setting one
    variable of the tree to one value of its domain (overriding it if
    the optimum has it, adding it if not), and no two tests of the list
    are equal. *)
Theorem importance_tests_sweep
    (get_variables : string -> result (list string)) (vartree : string)
    (poss_values : gmap string (list string)) (optimal_valuation : dict)
    (vars_list : list string) :
  get_variables vartree = Ok vars_list ->
  (forall var, In var vars_list -> poss_values !! var <> None) ->
  List.NoDup (map fst optimal_valuation) ->
  exists tests,
    importance_tests get_variables vartree poss_values optimal_valuation =
      Ok tests /\
    (forall t, In t tests ->
       exists var values val,
         In var vars_list /\ poss_values !! var = Some values /\
         In val values /\ t = dict_set optimal_valuation var val) /\
    (forall var values val,
       In var vars_list -> poss_values !! var = Some values -> In val values ->
       exists t, In t tests /\
                 dict_eqb (dict_set optimal_valuation var val) t = true) /\
    (forall i j t1 t2,
       i <> j -> nth_error tests i = Some t1 -> nth_error tests j = Some t2 ->
       dict_eqb t1 t2 = false).
Proof.
  intros Hgv Hall Hnd.
  unfold importance_tests. rewrite Hgv. cbn [bind].
  rewrite (importance_vars_add _ _ _ _ Hall).
  set (cs := candidates poss_values optimal_valuation vars_list).
  exists (fold_left add_test cs []).
  assert (Hsound : forall t, In t (fold_left add_test cs []) ->
            exists var values val,
              In var vars_list /\ poss_values !! var = Some values /\
              In val values /\ t = dict_set optimal_valuation var val).
  { intros t Ht. apply add_test_sound in Ht as [[]|Ht].
    now apply in_candidates. }
  split; [reflexivity|]. split; [exact Hsound|]. split.
  - intros var values val Hvar E Hval.
    apply add_test_complete.
    + apply in_candidates. now exists var, values, val.
    + now apply dict_eqb_refl, dict_set_NoDup.
  - apply first_occurrences_distinct.
    + apply add_test_first_occurrences.
      intros before t after Heq. destruct before; discriminate.
    + intros t Ht. destruct (Hsound t Ht) as (var & values & val & _ & _ & _ & ->).
      now apply dict_set_NoDup.
Qed.

Lemma importance_tests_sweep_witness :
  exists tests,
    importance_tests flatten_names "{threads, {blocks}}" example_poss_values
                     [("threads", "32")] = Ok tests /\
    (forall t, In t tests ->
       exists var values val,
         In var ["threads"; "blocks"] /\
         example_poss_values !! var = Some values /\
         In val values /\ t = dict_set [("threads", "32")] var val) /\
    (forall var values val,
       In var ["threads"; "blocks"] ->
       example_poss_values !! var = Some values -> In val values ->
       exists t, In t tests /\
                 dict_eqb (dict_set [("threads", "32")] var val) t = true) /\
    (forall i j t1 t2,
       i <> j -> nth_error tests i = Some t1 -> nth_error tests j = Some t2 ->
       dict_eqb t1 t2 = false).
Proof.
  apply (importance_tests_sweep flatten_names "{threads, {blocks}}"
           example_poss_values [("threads", "32")] ["threads"; "blocks"]).
  - reflexivity.
  - intros var Hin. repeat (destruct Hin as [<-|Hin]; [discriminate|]).
    contradiction.
  - repeat constructor; simpl; intuition.
Defined.

(** C4, as the claim states it, fails when the tree has a variable that
    the optimum does not have: with the optimum [{"threads": "32"}] the
    sweep also submits [{"threads": "32", "blocks": "16"}], which is not
    the optimum with one of its own variables overridden. *)
Lemma importance_sweeps_inactive_variables :
  ~ (forall (get_variables : string -> result (list string))
            (vartree : string) (poss_values : gmap string (list string))
            (optimal_valuation : dict) (tests : list dict),
       importance_tests get_variables vartree poss_values optimal_valuation =
         Ok tests ->
       forall t, In t tests ->
         exists var val,
           In var (map fst optimal_valuation) /\
           t = dict_set optimal_valuation var val).
Proof.
  intros H.
  assert (Htests : importance_tests flatten_names "{threads, {blocks}}"
                     example_poss_values [("threads", "32")] =
                   Ok [[("threads", "32")]; [("threads", "64")];
                       [("threads", "32"); ("blocks", "16")];
                       [("threads", "32"); ("blocks", "32")]])
    by reflexivity.
  destruct (H _ _ _ _ _ Htests [("threads", "32"); ("blocks", "16")])
    as (var & val & Hvar & Heq).
  - simpl. auto.
  - destruct Hvar as [<-|[]]. vm_compute in Heq. discriminate.
Qed.

(* ------------------------------------------------------------------ *)
(** ** Command templates                                               *)
(* ------------------------------------------------------------------ *)

Lemma string_app_nil_l (a : string) : EmptyString +:+ a = a.
Proof. reflexivity. Qed.

Lemma string_app_cons (x : ascii) (a b : string) :
  String x a +:+ b = String x (a +:+ b).
Proof. reflexivity. Qed.

Lemma string_app_same_length (a b c d : string) :
  a +:+ b = c +:+ d -> String.length a = String.length c -> a = c /\ b = d.
Proof.
  revert c; induction a as [|x a IH]; intros [|y c];
    rewrite ?string_app_nil_l, ?string_app_cons; simpl;
    try discriminate; [auto|].
  intros [= -> H] [= Hlen]. destruct (IH c H Hlen) as [-> ->]. auto.
Qed.

Lemma strip_prefix_Some (p s r : string) :
  strip_prefix p s = Some r <-> s = p +:+ r.
Proof.
  revert s; induction p as [|a p IH]; intros s; simpl;
    rewrite ?string_app_nil_l, ?string_app_cons.
  - split; [intros [= ->]; reflexivity | intros ->; reflexivity].
  - destruct s as [|b s]; [split; discriminate|].
    destruct (Ascii.eqb_spec a b) as [->|Hne].
    + rewrite IH. split; [intros ->; reflexivity | intros [= ->]; reflexivity].
    + split; [discriminate | intros [= E _]; now destruct Hne].
Qed.

(** A character that does not start an occurrence is copied. *)
Lemma replaced_copy (old new : string) (c : ascii) (s t : string) :
  strip_prefix old (String c s) = None ->
  replaced old new s t ->
  replaced old new (String c s) (String c t).
Proof.
  intros Hp H.
  assert (Hfirst : forall before after,
            String c s = before +:+ old +:+ after ->
            exists before', before = String c before' /\
                            s = before' +:+ old +:+ after).
  { intros [|x before] after E.
    - rewrite string_app_nil_l in E. apply strip_prefix_Some in E. congruence.
    - rewrite string_app_cons in E. injection E as -> E. eauto. }
  inversion H as [s0 Hnone | before after t0 Hleft Hrest]; subst.
  - apply replaced_none. intros before after E.
    destruct (Hfirst _ _ E) as (before' & -> & E'). now apply (Hnone before' after).
  - apply (replaced_first old new (String c before) after t0); [|exact Hrest].
    intros before' after' E.
    destruct (Hfirst _ _ E) as (b & -> & E'). simpl.
    apply le_n_S. now apply (Hleft b after').
Qed.

Lemma replace_nonempty_replaced (a : ascii) (old' new s : string) :
  replaced (String a old') new s (replace_nonempty a old' new s).
Proof.
  apply (replace_nonempty_elim
           (fun a old' new s t => replaced (String a old') new s t)).
  - intros b o n. apply replaced_none.
    intros [|x before] after;
      rewrite ?string_app_nil_l, ?string_app_cons; discriminate.
  - intros b o n c s' rest Hp IH _.
    apply strip_prefix_Some in Hp. rewrite Hp.
    apply (replaced_first (String b o) n EmptyString rest); [|exact IH].
    intros; simpl; lia.
  - intros b o n c s' Hp IH _. now apply replaced_copy.
Qed.

Lemma str_replace_replaced (s old new : string) :
  old <> EmptyString -> replaced old new s (str_replace s old new).
Proof.
  destruct old as [|a old']; [contradiction|]. intros _.
  apply replace_nonempty_replaced.
Qed.

Lemma replaced_deterministic (old new s t1 t2 : string) :
  replaced old new s t1 -> replaced old new s t2 -> t1 = t2.
Proof.
  intros H1; revert t2.
  induction H1 as [s Hnone | before after t Hleft Hrest IH]; intros t2 H2.
  - inversion H2 as [? ? | before after t ? ?]; subst; [reflexivity|].
    now destruct (Hnone before after).
  - inversion H2 as [s0 Hnone Hs | before' after' t' Hleft' Hrest' Hs];
      subst.
    + now destruct (Hnone before after).
    + pose proof (Hleft _ _ (eq_sym Hs)) as L1.
      pose proof (Hleft' _ _ Hs) as L2.
      destruct (string_app_same_length _ _ _ _ Hs) as [-> E]; [lia|].
      apply String.app_inj in E. subst after'.
      now rewrite (IH _ Hrest').
Qed.

Lemma placeholder_nonempty (var_name : string) :
  "%" +:+ var_name +:+ "%" <> EmptyString.
Proof. discriminate. Qed.

Lemma make_command_string_substituted (var_dict : dict) (command : string) :
  substituted var_dict command
    (fold_left
       (fun command '(var_name, var_value) =>
          let placeholder := "%" +:+ var_name +:+ "%" in
          str_replace command placeholder var_value)
       var_dict command).
Proof.
  revert command; induction var_dict as [|[name value] d IH]; intros command.
  - constructor.
  - cbn [fold_left]. econstructor; [|apply IH].
    apply str_replace_replaced, placeholder_nonempty.
Qed.

Lemma substituted_deterministic (var_dict : dict) (c t1 t2 : string) :
  substituted var_dict c t1 -> substituted var_dict c t2 -> t1 = t2.
Proof.
  intros H1; revert t2. induction H1 as [c | name value d c c' c'' Hr Hs IH];
    intros t2 H2; inversion H2; subst; [reflexivity|].
  apply IH.
  match goal with
  | H : replaced _ _ c ?x |- substituted d c' _ =>
      now rewrite (replaced_deterministic _ _ _ _ _ Hr H)
  end.
Qed.

(** C3: the rendered command is the template with every occurrence of
    [%%ID%%] replaced by the decimal form of the test id and then, for
    every variable of the valuation in turn, every occurrence of
    [%name%] replaced by the value of the variable; it is the only
    string that is so. *)
Theorem make_command_string_rendered (template : string) (test_id : Z)
    (var_dict : dict) (command : string) :
  rendered template test_id var_dict command <->
  command = make_command_string template test_id var_dict.
Proof.
  split.
  - intros (c0 & Hid & Hvars).
    assert (E : c0 = str_replace template "%%ID%%" (py_str_int test_id)).
    { eapply replaced_deterministic; [exact Hid|].
      now apply str_replace_replaced. }
    subst c0. eapply substituted_deterministic; [exact Hvars|].
    apply make_command_string_substituted.
  - intros ->. eexists. split.
    + now apply str_replace_replaced.
    + apply make_command_string_substituted.
Qed.
